(** * Flow execution engine of the agent builder

    A shallow embedding of the execution core of the [AgentBuilder]
    component: the execution order resolver ([getExecutionOrder]), the run
    controller ([runFlow]) with its per-node executors, the edge editing
    callback ([onConnect]) and the numeric coercions of the two API routes.

    Conventions.
    - A JS value of type [string | undefined] is an [option string]; a JS
      object used as a dictionary is a [gmap string string].
    - The [while] loop of the resolver has no bound in the source.  It is
      modelled with a fuel that counts the hops taken along outgoing edges
      ([adjacencyMap.get] calls); running out of fuel is [None].
    - A run works on an explicit state: the content of the log panel
      ([setLogMessages]) and the requests sent so far ([fetch]); the remote
      services are a function from the requests sent before and the current
      request to a response.
    - The [timestamp] field of a log entry (wall clock) and the visual
      attributes of nodes and edges are left out. *)

From Stdlib Require Import ZArith QArith Ascii String.
From stdpp Require Import base option list strings pretty gmap fin_maps.

Open Scope string_scope.
Open Scope list_scope.
Open Scope nat_scope.

(** ** Data model *)

Record NodeData := mkNodeData {
  label : string;
  nodeType : string;
  parameters : option (gmap string string)
}.

Record Node := mkNode {
  id : string;
  data : NodeData
}.

Record Edge := mkEdge {
  edgeId : string;
  source : string;
  target : string;
  sourceHandle : option string;
  targetHandle : option string
}.

Record LogEntry := mkLogEntry {
  nodeId : string;
  nodeName : string;
  output : string
}.

(** JS truthiness of a [string | undefined]: [undefined] and the empty
    string are falsy. *)
Definition truthy (v : option string) : bool :=
  match v with
  | None => false
  | Some s => negb (String.eqb s EmptyString)
  end.

(** [a || b] on strings. *)
Definition orElse (a : option string) (b : string) : string :=
  match a with
  | Some s => if String.eqb s EmptyString then b else s
  | None => b
  end.

(** ** Execution order resolver *)

Definition hasType (t : string) (n : Node) : bool :=
  String.eqb (nodeType (data n)) t.

Definition hasId (i : string) (n : Node) : bool :=
  String.eqb (id n) i.

(** [edges.forEach((edge) => adjacencyMap.set(edge.source, edge.target))] *)
Definition adjacencyMap (edges : list Edge) : gmap string string :=
  fold_left (fun m e => <[source e := target e]> m) edges ∅.

(** The [while (currentNodeId)] loop.  One unit of fuel is spent per hop. *)
Fixpoint traverse (nodes : list Node) (adj : gmap string string)
    (fuel : nat) (currentNodeId : option string)
    (executionOrder : list Node) : option (list Node) :=
  match currentNodeId with
  | None => Some executionOrder
  | Some cid =>
    if negb (truthy (Some cid)) then Some executionOrder
    else
      match find (hasId cid) nodes with
      | None => Some executionOrder
      | Some currentNode =>
        let executionOrder := executionOrder ++ [currentNode] in
        if hasType "End" currentNode then Some executionOrder
        else
          match fuel with
          | O => None
          | S fuel => traverse nodes adj fuel (adj !! cid) executionOrder
          end
      end
  end.

(** [getExecutionOrder]: the outer [option] is the fuel, the inner one is
    the source's [Node[] | null]. *)
Definition getExecutionOrder (fuel : nat) (nodes : list Node)
    (edges : list Edge) : option (option (list Node)) :=
  match find (hasType "Start") nodes with
  | None => Some None
  | Some startNode =>
    match find (hasType "End") nodes with
    | None => Some None
    | Some endNode =>
      let adj := adjacencyMap edges in
      match traverse nodes adj fuel (Some (id startNode)) [] with
      | None => None
      | Some executionOrder =>
        match last executionOrder with
        | None => Some None
        | Some lastNode =>
          if hasType "End" lastNode then Some (Some executionOrder)
          else Some None
        end
      end
    end
  end.

(** ** Remote calls *)

(** The body of a [fetch] request, one constructor per endpoint and action. *)
Inductive Request :=
| GeminiRequest
    (systemInstruction userMessage temperature maxOutputTokens topK : string)
| WebScrapeRequest (url instruction : string)
| PineconeEmbed (text source info tag workflow nodeId : string)
| PineconeSearch (query topK : string).

(** The decoded JSON body of a response.  Every field is given as the text
    that the template literals of the component print for it; [data] and
    [metadata] are their [JSON.stringify(_, null, 2)] renderings and [score]
    is [match.score.toFixed(4)]. *)
Module Resp.
Record Match := mkMatch {
  score : string;
  text : string;
  source : option string;
  tag : option string
}.

Record Data := mkData {
  output : string;
  error : option string;
  details : option string;
  url : string;
  instruction : string;
  data : string;
  id : string;
  dimension : string;
  metadata : string;
  query : string;
  resultsCount : string;
  topK : string;
  matches : list Match
}.
End Resp.

(** What [await fetch(...)] followed by [await response.json()] yields:
    a decoded body together with [response.ok], or an error thrown inside
    the [try] block (by [fetch], by [response.json()], or while a body that
    lacks a field is formatted), with its message. *)
Inductive Response :=
| Settled (ok : bool) (body : Resp.Data)
| Thrown (message : string).

(** The remote services.  The answer may depend on the requests issued
    earlier in the same run. *)
Definition Remote := list Request → Request → Response.

(** ** Node executors *)

Definition nl : string := String (Ascii.ascii_of_nat 10) EmptyString.

(** [params?.key || dflt] *)
Definition param (n : Node) (key dflt : string) : string :=
  orElse (parameters (data n) ≫= (fun params => params !! key)) dflt.

Inductive ExecResult :=
| Success (out : string)
| Failure (errorMsg : string).

Definition llmRequest (node : Node) : Request :=
  GeminiRequest (param node "systemInstruction" EmptyString)
                (param node "userMessage" EmptyString)
                (param node "temperature" "0.7")
                (param node "maxOutputTokens" "1024")
                (param node "topK" "40").

Definition llmResult (r : Response) : ExecResult :=
  match r with
  | Settled true body => Success (Resp.output body)
  | Settled false body =>
      Failure ("Error: " +:+ orElse (Resp.error body) "Failed to get response")
  | Thrown message => Failure ("Error: " +:+ message)
  end.

Definition webScrapeRequest (node : Node) : Request :=
  WebScrapeRequest (param node "url" EmptyString)
                   (param node "instruction" EmptyString).

Definition webScrapeResult (r : Response) : ExecResult :=
  match r with
  | Settled true body =>
      Success ("‚úÖ Extraction Complete" +:+ nl +:+ nl
               +:+ "URL: " +:+ Resp.url body +:+ nl
               +:+ "Instruction: " +:+ Resp.instruction body +:+ nl +:+ nl
               +:+ "--- Extracted Data ---" +:+ nl
               +:+ Resp.data body)
  | Settled false body =>
      Failure ("Error: " +:+
               orElse (Resp.error body)
                      (orElse (Resp.details body) "Failed to extract data"))
  | Thrown message => Failure ("Error: " +:+ message)
  end.

Definition embedRequest (node : Node) : Request :=
  PineconeEmbed (param node "text" EmptyString)
                (param node "source" EmptyString)
                (param node "info" EmptyString)
                (param node "tag" EmptyString)
                (param node "workflow" EmptyString)
                (id node).

Definition embedResult (r : Response) : ExecResult :=
  match r with
  | Settled true body =>
      Success ("‚úÖ Embedding Generated & Stored" +:+ nl +:+ nl
               +:+ "ID: " +:+ Resp.id body +:+ nl
               +:+ "Dimension: " +:+ Resp.dimension body +:+ nl +:+ nl
               +:+ "--- Metadata ---" +:+ nl
               +:+ Resp.metadata body)
  | Settled false body =>
      Failure ("Error: " +:+
               orElse (Resp.error body)
                      (orElse (Resp.details body)
                              "Failed to generate embedding"))
  | Thrown message => Failure ("Error: " +:+ message)
  end.

Definition searchRequest (node : Node) : Request :=
  PineconeSearch (param node "query" EmptyString) (param node "topK" "5").

(** The body of [data.matches.forEach((match, index) => ...)];
    [substring] counts characters of ASCII text. *)
Definition formatMatch (index : nat) (m : Resp.Match) : string :=
  pretty (index + 1) +:+ ". Score: " +:+ Resp.score m +:+ nl
  +:+ "   Text: " +:+ String.substring 0 100 (Resp.text m) +:+ "..." +:+ nl
  +:+ (if truthy (Resp.source m)
       then "   Source: " +:+ default EmptyString (Resp.source m) +:+ nl
       else EmptyString)
  +:+ (if truthy (Resp.tag m)
       then "   Tag: " +:+ default EmptyString (Resp.tag m) +:+ nl
       else EmptyString)
  +:+ nl.

Definition searchResult (r : Response) : ExecResult :=
  match r with
  | Settled true body =>
      Success ("‚úÖ Similarity Search Complete" +:+ nl +:+ nl
               +:+ "Query: " +:+ Resp.query body +:+ nl
               +:+ "Results Found: " +:+ Resp.resultsCount body +:+ nl +:+ nl
               +:+ "--- Top " +:+ Resp.topK body +:+ " Matches ---"
               +:+ nl +:+ nl
               +:+ String.concat EmptyString
                     (imap formatMatch (Resp.matches body)))
  | Settled false body =>
      Failure ("Error: " +:+
               orElse (Resp.error body)
                      (orElse (Resp.details body) "Failed to search"))
  | Thrown message => Failure ("Error: " +:+ message)
  end.

(** What the body of the [for] loop does with one node: the branches of the
    source, in their order. *)
Inductive Step :=
| Marker (out : string)
| Call (req : Request) (result : Response → ExecResult)
| Skip.

Definition dispatch (node : Node) : Step :=
  if hasType "Start" node then Marker "‚ñ∂Ô∏è Starting flow execution..."
  else if hasType "End" node then
    Marker "‚èπÔ∏è Flow execution completed successfully"
  else if hasType "LLM" node then Call (llmRequest node) llmResult
  else if hasType "Web Scraping" node then
    Call (webScrapeRequest node) webScrapeResult
  else if hasType "Embedding Generator" node then
    Call (embedRequest node) embedResult
  else if hasType "Similarity Search" node then
    Call (searchRequest node) searchResult
  else Skip.

(** ** Run controller *)

(** The state a run works on: the log panel and the requests sent so far. *)
Record RunState := mkRunState {
  logMessages : list LogEntry;
  requests : list Request
}.

(** [setLogMessages(l)] *)
Definition setLogMessages (l : list LogEntry) (st : RunState) : RunState :=
  {| logMessages := l; requests := requests st |}.

(** [setLogMessages((prev) => [...prev, e])] *)
Definition appendLogMessage (e : LogEntry) (st : RunState) : RunState :=
  {| logMessages := logMessages st ++ [e]; requests := requests st |}.

Definition recordRequest (req : Request) (st : RunState) : RunState :=
  {| logMessages := logMessages st; requests := requests st ++ [req] |}.

Definition nodeEntry (node : Node) (out : string) : LogEntry :=
  {| nodeId := id node; nodeName := label (data node); output := out |}.

Definition validationError : LogEntry :=
  {| nodeId := "system"; nodeName := "System";
     output := "‚ùå Error: Flow validation failed. Make sure you have:" +:+ nl
               +:+ "1. A Start node" +:+ nl
               +:+ "2. An End node" +:+ nl
               +:+ "3. All nodes connected in a path from Start to End" |}.

Definition flowStarted (n : nat) : LogEntry :=
  {| nodeId := "system"; nodeName := "System";
     output := "‚ñ∂Ô∏è Flow execution started with " +:+ pretty n +:+ " nodes" |}.

(** How a run ends: which [return] of [runFlow] is taken. *)
Inductive Outcome :=
| ValidationFailed
| StoppedAt (position : nat)
| Completed.

(** The [for (const node of executionOrder)] loop; [position] is the index
    of the head of [order] in the resolved sequence. *)
Fixpoint executeNodes (remote : Remote) (order : list Node) (position : nat)
    (st : RunState) : RunState * Outcome :=
  match order with
  | [] => (st, Completed)
  | node :: rest =>
    match dispatch node with
    | Marker out =>
        executeNodes remote rest (S position)
                     (appendLogMessage (nodeEntry node out) st)
    | Call req result =>
        let response := remote (requests st) req in
        let st := recordRequest req st in
        match result response with
        | Success out =>
            executeNodes remote rest (S position)
                         (appendLogMessage (nodeEntry node out) st)
        | Failure errorMsg =>
            (appendLogMessage (nodeEntry node errorMsg) st, StoppedAt position)
        end
    | Skip => executeNodes remote rest (S position) st
    end
  end.

(** [runFlow], started on the log [log0] left by earlier actions. *)
Definition runFlow (remote : Remote) (fuel : nat) (nodes : list Node)
    (edges : list Edge) (log0 : list LogEntry) : option (RunState * Outcome) :=
  let st := setLogMessages [] {| logMessages := log0; requests := [] |} in
  match getExecutionOrder fuel nodes edges with
  | None => None
  | Some None => Some (setLogMessages [validationError] st, ValidationFailed)
  | Some (Some executionOrder) =>
      let st := setLogMessages [flowStarted (length executionOrder)] st in
      Some (executeNodes remote executionOrder 0 st)
  end.

(** ** Editing surface: [onConnect] *)

(** The argument of [onConnect] ([Connection | Edge]). *)
Module Conn.
Record t := mk {
  id : option string;
  source : string;
  target : string;
  sourceHandle : option string;
  targetHandle : option string
}.
End Conn.

(** [addEdge] belongs to the @xyflow/react library, not to the repository.
    The library documents that it returns the given edges unchanged (when
    the connection lacks an end or already exists) or the given edges with
    one edge for the connection added at the end. *)
Definition addEdgeContract (addEdge : Conn.t → list Edge → list Edge) : Prop :=
  ∀ params eds,
    addEdge params eds = eds ∨
    ∃ e, source e = Conn.source params ∧ target e = Conn.target params ∧
         addEdge params eds = eds ++ [e].

(** The library's [addEdge], after its published source. *)
Definition getEdgeId (params : Conn.t) : string :=
  "xy-edge__" +:+ Conn.source params
  +:+ orElse (Conn.sourceHandle params) EmptyString
  +:+ "-" +:+ Conn.target params
  +:+ orElse (Conn.targetHandle params) EmptyString.

Definition sameHandle (a b : option string) : bool :=
  bool_decide (a = b) || (negb (truthy a) && negb (truthy b)).

Definition connectionExists (edge : Edge) (eds : list Edge) : bool :=
  existsb (fun el => String.eqb (source el) (source edge)
                     && String.eqb (target el) (target edge)
                     && sameHandle (sourceHandle el) (sourceHandle edge)
                     && sameHandle (targetHandle el) (targetHandle edge)) eds.

Definition addEdge (params : Conn.t) (eds : list Edge) : list Edge :=
  if negb (truthy (Some (Conn.source params)))
     || negb (truthy (Some (Conn.target params)))
  then eds
  else
    let edge := {| edgeId := default (getEdgeId params) (Conn.id params);
                   source := Conn.source params;
                   target := Conn.target params;
                   sourceHandle := Conn.sourceHandle params;
                   targetHandle := Conn.targetHandle params |} in
    if connectionExists edge eds then eds else eds ++ [edge].

(** The updater that [onConnect] passes to [setEdges]. *)
Definition onConnect (addEdge : Conn.t → list Edge → list Edge)
    (params : Conn.t) (eds : list Edge) : list Edge :=
  let filteredEdges :=
    List.filter
      (fun e => negb (String.eqb (source e) (Conn.source params))) eds in
  addEdge params filteredEdges.

(** The outgoing edges of a node and the invariant of the editing surface. *)
Definition outgoing (s : string) (eds : list Edge) : list Edge :=
  List.filter (fun e => String.eqb (source e) s) eds.

Definition atMostOneOutgoing (eds : list Edge) : Prop :=
  ∀ s, length (outgoing s eds) ≤ 1.

(** ** Numeric coercions of the API routes *)

(** A JS number: [NaN] or a value.  Values are kept exact; the rounding to
    a double does not matter for the parameters below. *)
Inductive number :=
| NaN
| Num (q : Q).

(** [x || y] tests [x]: [NaN] and zero are falsy. *)
Definition numberTruthy (x : number) : bool :=
  match x with
  | NaN => false
  | Num q => negb (Qeq_bool q 0)
  end.

(** The built-in [parseInt(string)] without a radix, after ECMA-262, on
    ASCII input: leading white space, a sign, an optional [0x] prefix,
    then the longest prefix of digits; no digit gives [NaN]. *)
Definition isWhiteSpace (c : ascii) : bool :=
  let n := Ascii.nat_of_ascii c in
  (Nat.leb 9 n && Nat.leb n 13) || Nat.eqb n 32.

Fixpoint trimStart (s : string) : string :=
  match s with
  | String c s' => if isWhiteSpace c then trimStart s' else s
  | EmptyString => s
  end.

Definition digitValue (c : ascii) : option Z :=
  let n := Z.of_nat (Ascii.nat_of_ascii c) in
  if (48 <=? n)%Z && (n <=? 57)%Z then Some (n - 48)%Z
  else if (97 <=? n)%Z && (n <=? 122)%Z then Some (n - 87)%Z
  else if (65 <=? n)%Z && (n <=? 90)%Z then Some (n - 55)%Z
  else None.

Fixpoint digitsPrefix (radix : Z) (s : string) (acc : option Z) : option Z :=
  match s with
  | String c s' =>
    match digitValue c with
    | Some d =>
      if (d <? radix)%Z
      then digitsPrefix radix s' (Some (default 0%Z acc * radix + d)%Z)
      else acc
    | None => acc
    end
  | EmptyString => acc
  end.

Definition parseInt (input : string) : number :=
  let s := trimStart input in
  let '(sign, s) :=
    match s with
    | String "-" s' => ((-1)%Z, s')
    | String "+" s' => (1%Z, s')
    | _ => (1%Z, s)
    end in
  let '(radix, s) :=
    match s with
    | String "0" (String "x" s') => (16%Z, s')
    | String "0" (String "X" s') => (16%Z, s')
    | _ => (10%Z, s)
    end in
  match digitsPrefix radix s None with
  | None => NaN
  | Some n => Num (inject_Z (sign * n))
  end.

(** The generation route ([POST /api/gemini]).  [parseFloat] is the JS
    built-in; the fields are those read from the request body. *)
Section GeminiRoute.
Variable parseFloat : string → number.

(** [temperature ? parseFloat(temperature) : 0.7] *)
Definition parsedTemperature (temperature : option string) : number :=
  if truthy temperature then parseFloat (default EmptyString temperature)
  else Num (7 # 10).
End GeminiRoute.

(** [maxOutputTokens ? parseInt(maxOutputTokens) : 1024] *)
Definition parsedMaxOutputTokens (maxOutputTokens : option string) : number :=
  if truthy maxOutputTokens then parseInt (default EmptyString maxOutputTokens)
  else Num 1024.

(** [topK ? parseInt(topK) : 40] *)
Definition parsedTopK (topK : option string) : number :=
  if truthy topK then parseInt (default EmptyString topK)
  else Num 40.

(** The search action of the vector route ([POST /api/pinecone]):
    [parseInt(topK) || 5]; a missing [topK] is converted by [parseInt] to
    the text [undefined]. *)
Definition topKResults (topK : option string) : number :=
  let n := parseInt (default "undefined" topK) in
  if numberTruthy n then n else Num 5.

(** What the routes make of the request the run controller sends.  Both
    routes answer with an error before parsing when the required text
    ([userMessage], [query]) is blank: that is [None].  They also do so
    when the key of the service is missing from the environment, which is
    taken to be configured here. *)
Definition generationConfig (parseFloat : string → number) (req : Request)
    : option (number * number * number) :=
  match req with
  | GeminiRequest _ userMessage temperature maxOutputTokens topK =>
      if negb (truthy (Some userMessage)) then None
      else Some (parsedTemperature parseFloat (Some temperature),
                 parsedMaxOutputTokens (Some maxOutputTokens),
                 parsedTopK (Some topK))
  | _ => None
  end.

Definition searchTopK (req : Request) : option number :=
  match req with
  | PineconeSearch query topK =>
      if negb (truthy (Some query)) then None
      else Some (topKResults (Some topK))
  | _ => None
  end.

(** ** The walk as a relation

    [Walk nodes adj cur k visited]: started on [cur], the loop of the
    resolver takes [k] hops, pushes [visited] and stops. *)
Inductive Walk (nodes : list Node) (adj : gmap string string) :
    option string → nat → list Node → Prop :=
| walk_falsy cur :
    truthy cur = false → Walk nodes adj cur 0 []
| walk_missing cid :
    truthy (Some cid) = true →
    find (hasId cid) nodes = None →
    Walk nodes adj (Some cid) 0 []
| walk_end cid n :
    truthy (Some cid) = true →
    find (hasId cid) nodes = Some n →
    hasType "End" n = true →
    Walk nodes adj (Some cid) 0 [n]
| walk_hop cid n k rest :
    truthy (Some cid) = true →
    find (hasId cid) nodes = Some n →
    hasType "End" n = false →
    Walk nodes adj (adj !! cid) k rest →
    Walk nodes adj (Some cid) (S k) (n :: rest).

(** ** Notions used in the statements *)

(** Node ids as the editing surface assigns them ([getNodeId]): unique and
    never empty. *)
Definition wellFormedIds (nodes : list Node) : Prop :=
  NoDup (map id nodes) ∧ Forall (fun n => id n ≠ EmptyString) nodes.

(** [s] has an outgoing edge, and all its outgoing edges lead to [t]. *)
Definition uniqueOutgoing (edges : list Edge) (s t : string) : Prop :=
  (∃ e, In e edges ∧ source e = s ∧ target e = t) ∧
  ∀ e, In e edges → source e = s → target e = t.

(** [reachesEnd nodes edges a k path]: following the unique outgoing edges
    from [a] reaches a node of type End after [k] hops, along [path]. *)
Inductive reachesEnd (nodes : list Node) (edges : list Edge) :
    Node → nat → list Node → Prop :=
| reach_here e :
    hasType "End" e = true → reachesEnd nodes edges e 0 [e]
| reach_hop a b k path :
    hasType "End" a = false →
    uniqueOutgoing edges (id a) (id b) →
    In b nodes →
    reachesEnd nodes edges b k path →
    reachesEnd nodes edges a (S k) (a :: path).

(** Node types for which the loop of [runFlow] appends a log entry. *)
Definition logged (n : Node) : bool :=
  match dispatch n with
  | Skip => false
  | _ => true
  end.

(** The request a node's executor sends, if any. *)
Definition requestOf (n : Node) : option Request :=
  match dispatch n with
  | Call req _ => Some req
  | _ => None
  end.

Definition resultText (r : ExecResult) : string :=
  match r with
  | Success out => out
  | Failure errorMsg => errorMsg
  end.

(** One entry per node with the output of its executor, none for a node
    without executor or marker; [history] are the requests sent before. *)
Fixpoint expectedEntries (remote : Remote) (history : list Request)
    (nodes : list Node) : list LogEntry :=
  match nodes with
  | [] => []
  | n :: rest =>
    match dispatch n with
    | Marker out => nodeEntry n out :: expectedEntries remote history rest
    | Call req result =>
        nodeEntry n (resultText (result (remote history req)))
        :: expectedEntries remote (history ++ [req]) rest
    | Skip => expectedEntries remote history rest
    end
  end.

(** The nodes a run with the given outcome got to. *)
Definition executed (order : list Node) (oc : Outcome) : list Node :=
  match oc with
  | ValidationFailed => []
  | StoppedAt i => take (S i) order
  | Completed => order
  end.

(** The part of [order] that the loop, started at index [pos], got to. *)
Definition reached (pos : nat) (order : list Node) (oc : Outcome) : list Node :=
  match oc with
  | StoppedAt i => take (S (i - pos)) order
  | _ => order
  end.

(** The three ways in which a graph is not executable. *)
Definition noNodeOfType (t : string) (nodes : list Node) : Prop :=
  ∀ n, In n nodes → nodeType (data n) ≠ t.

Definition deadEnds (nodes : list Node) (edges : list Edge) : Prop :=
  ∃ startNode k visited,
    find (hasType "Start") nodes = Some startNode ∧
    Walk nodes (adjacencyMap edges) (Some (id startNode)) k visited ∧
    ∀ n, last visited = Some n → hasType "End" n = false.

(** ** Sample graphs *)

Definition sampleNode (i t : string) : Node :=
  {| id := i;
     data := {| label := "Node " +:+ i; nodeType := t; parameters := None |} |}.

Definition sampleEdge (s t : string) : Edge :=
  {| edgeId := "xy-edge__" +:+ s +:+ "-" +:+ t; source := s; target := t;
     sourceHandle := None; targetHandle := None |}.

(** Start -> LLM -> End, and a second chain Input -> Output on the side. *)
Definition chainNodes : list Node :=
  [sampleNode "node_0" "Start"; sampleNode "node_1" "LLM";
   sampleNode "node_2" "End"; sampleNode "node_3" "Input";
   sampleNode "node_4" "Output"].

Definition chainEdges : list Edge :=
  [sampleEdge "node_0" "node_1"; sampleEdge "node_1" "node_2";
   sampleEdge "node_3" "node_4"].

Definition chainOrder : list Node :=
  [sampleNode "node_0" "Start"; sampleNode "node_1" "LLM";
   sampleNode "node_2" "End"].

(** Two Start nodes, the first one wired to End. *)
Definition twoStartNodes : list Node :=
  [sampleNode "node_0" "Start"; sampleNode "node_1" "Start";
   sampleNode "node_2" "End"].

Definition twoStartEdges : list Edge := [sampleEdge "node_0" "node_2"].

(** Start -> Input -> LLM -> End. *)
Definition inputNodes : list Node :=
  [sampleNode "node_0" "Start"; sampleNode "node_1" "Input";
   sampleNode "node_2" "LLM"; sampleNode "node_3" "End"].

Definition inputEdges : list Edge :=
  [sampleEdge "node_0" "node_1"; sampleEdge "node_1" "node_2";
   sampleEdge "node_2" "node_3"].

(** Start -> Input, with End left unconnected. *)
Definition deadEndNodes : list Node :=
  [sampleNode "node_0" "Start"; sampleNode "node_1" "Input";
   sampleNode "node_2" "End"].

Definition deadEndEdges : list Edge := [sampleEdge "node_0" "node_1"].

(** Start -> Input -> Start: a cycle that never reaches End. *)
Definition cycleNodes : list Node :=
  [sampleNode "node_0" "Start"; sampleNode "node_1" "Input";
   sampleNode "node_2" "End"].

Definition cycleEdges : list Edge :=
  [sampleEdge "node_0" "node_1"; sampleEdge "node_1" "node_0"].

(** Two edges leaving [node_0]: the later one leads to End. *)
Definition forkNodes : list Node :=
  [sampleNode "node_0" "Start"; sampleNode "node_1" "Input";
   sampleNode "node_2" "End"].

Definition forkEdges : list Edge :=
  [sampleEdge "node_0" "node_1"; sampleEdge "node_0" "node_2"].

Definition sampleBody : Resp.Data :=
  {| Resp.output := "Hello"; Resp.error := None; Resp.details := None;
     Resp.url := EmptyString; Resp.instruction := EmptyString;
     Resp.data := EmptyString; Resp.id := EmptyString;
     Resp.dimension := EmptyString; Resp.metadata := EmptyString;
     Resp.query := EmptyString; Resp.resultsCount := EmptyString;
     Resp.topK := EmptyString; Resp.matches := [] |}.

(** A remote that answers every request, and one that refuses every one. *)
Definition answering : Remote := fun _ _ => Settled true sampleBody.
Definition refusing : Remote := fun _ _ => Settled false sampleBody.

(** An LLM node whose [maxOutputTokens] parameter is not a number, and a
    Similarity Search node whose [topK] is not one. *)
Definition unparsableLLM : Node :=
  {| id := "node_1";
     data := {| label := "Node 2"; nodeType := "LLM";
                parameters := Some {[ "userMessage" := "Hi";
                                      "maxOutputTokens" := "abc" ]} |} |}.

Definition unparsableSearch : Node :=
  {| id := "node_2";
     data := {| label := "Node 3"; nodeType := "Similarity Search";
                parameters := Some {[ "query" := "Hi"; "topK" := "abc" ]} |} |}.


(** ** More notions on the walk *)

(** [Steps nodes adj cur j visited cur']: started on [cur], the loop of the
    resolver goes through [j] full iterations, pushing [visited], and is
    about to test [cur']. *)
Inductive Steps (nodes : list Node) (adj : gmap string string) :
    option string → nat → list Node → option string → Prop :=
| steps_here cur : Steps nodes adj cur 0 [] cur
| steps_hop cid n j rest cur' :
    truthy (Some cid) = true →
    find (hasId cid) nodes = Some n →
    hasType "End" n = false →
    Steps nodes adj (adj !! cid) j rest cur' →
    Steps nodes adj (Some cid) (S j) (n :: rest) cur'.

(** Consecutive nodes of a sequence are joined by the adjacency map. *)
Definition linked (adj : gmap string string) (order : list Node) : Prop :=
  ∀ i a b, order !! i = Some a → order !! (S i) = Some b →
           adj !! id a = Some (id b).


(** ** The editor: state and callbacks of [AgentBuilder] *)

(** A [keydown] event, as far as [handleKeyDown] looks at it. *)
Record KeyEvent := mkKeyEvent {
  key : string;
  tagName : string;
  isContentEditable : bool
}.

(** A parsed workflow file.  A field that is missing (or falsy) is [None]. *)
Record Workflow := mkWorkflow {
  workflowNodes : option (list Node);
  workflowEdges : option (list Edge);
  nodeIdCounter : option nat
}.

Module Editor.
(** The state hooks of the component, with [nodeIdRef.current]. *)
Record t := mk {
  nodes : list Node;
  edges : list Edge;
  editingNode : option string;
  nodeName : string;
  selectedNodeType : string;
  expandedNode : option string;
  nodeParameters : gmap string string;
  testOutput : string;
  isTestLoading : bool;
  logMessages : list LogEntry;
  nodeIdRef : nat
}.

Definition initial : t :=
  {| nodes := []; edges := []; editingNode := None; nodeName := EmptyString;
     selectedNodeType := EmptyString; expandedNode := None;
     nodeParameters := ∅; testOutput := EmptyString; isTestLoading := false;
     logMessages := []; nodeIdRef := 0 |}.

Definition setNodes (v : list Node) (st : t) : t :=
  mk v (edges st) (editingNode st) (nodeName st) (selectedNodeType st)
     (expandedNode st) (nodeParameters st) (testOutput st) (isTestLoading st)
     (logMessages st) (nodeIdRef st).

Definition setEdges (v : list Edge) (st : t) : t :=
  mk (nodes st) v (editingNode st) (nodeName st) (selectedNodeType st)
     (expandedNode st) (nodeParameters st) (testOutput st) (isTestLoading st)
     (logMessages st) (nodeIdRef st).

Definition setEditingNode (v : option string) (st : t) : t :=
  mk (nodes st) (edges st) v (nodeName st) (selectedNodeType st)
     (expandedNode st) (nodeParameters st) (testOutput st) (isTestLoading st)
     (logMessages st) (nodeIdRef st).

Definition setNodeName (v : string) (st : t) : t :=
  mk (nodes st) (edges st) (editingNode st) v (selectedNodeType st)
     (expandedNode st) (nodeParameters st) (testOutput st) (isTestLoading st)
     (logMessages st) (nodeIdRef st).

Definition setSelectedNodeType (v : string) (st : t) : t :=
  mk (nodes st) (edges st) (editingNode st) (nodeName st) v
     (expandedNode st) (nodeParameters st) (testOutput st) (isTestLoading st)
     (logMessages st) (nodeIdRef st).

Definition setExpandedNode (v : option string) (st : t) : t :=
  mk (nodes st) (edges st) (editingNode st) (nodeName st)
     (selectedNodeType st) v (nodeParameters st) (testOutput st)
     (isTestLoading st) (logMessages st) (nodeIdRef st).

Definition setNodeParameters (v : gmap string string) (st : t) : t :=
  mk (nodes st) (edges st) (editingNode st) (nodeName st)
     (selectedNodeType st) (expandedNode st) v (testOutput st)
     (isTestLoading st) (logMessages st) (nodeIdRef st).

Definition setTestOutput (v : string) (st : t) : t :=
  mk (nodes st) (edges st) (editingNode st) (nodeName st)
     (selectedNodeType st) (expandedNode st) (nodeParameters st) v
     (isTestLoading st) (logMessages st) (nodeIdRef st).

Definition setIsTestLoading (v : bool) (st : t) : t :=
  mk (nodes st) (edges st) (editingNode st) (nodeName st)
     (selectedNodeType st) (expandedNode st) (nodeParameters st)
     (testOutput st) v (logMessages st) (nodeIdRef st).

Definition setLogMessages (v : list LogEntry) (st : t) : t :=
  mk (nodes st) (edges st) (editingNode st) (nodeName st)
     (selectedNodeType st) (expandedNode st) (nodeParameters st)
     (testOutput st) (isTestLoading st) v (nodeIdRef st).

Definition setNodeIdRef (v : nat) (st : t) : t :=
  mk (nodes st) (edges st) (editingNode st) (nodeName st)
     (selectedNodeType st) (expandedNode st) (nodeParameters st)
     (testOutput st) (isTestLoading st) (logMessages st) v.
End Editor.

(** [getNodeId]: the id made of the counter, and the counter moved on. *)
Definition getNodeId (st : Editor.t) : string * Editor.t :=
  let id := Editor.nodeIdRef st in
  ("node_" +:+ pretty id, Editor.setNodeIdRef (id + 1) st).

(** [addNode(nodeType)]; the random position is left out. *)
Definition addNode (nodeType : string) (st : Editor.t) : Editor.t :=
  if negb (truthy (Some nodeType)) then st
  else
    let '(id, st) := getNodeId st in
    let newNode :=
      {| id := id;
         data := {| label := "Node " +:+ pretty (Editor.nodeIdRef st);
                    nodeType := nodeType;
                    parameters := Some ∅ |} |} in
    Editor.setSelectedNodeType EmptyString
      (Editor.setNodes (Editor.nodes st ++ [newNode]) st).

(** [handleKeyDown]; the [selected] flags that the canvas keeps on nodes
    and edges are given as [nodeSelected] and [edgeSelected]. *)
Definition handleKeyDown (nodeSelected : Node → bool)
    (edgeSelected : Edge → bool) (event : KeyEvent) (st : Editor.t)
    : Editor.t :=
  if String.eqb (key event) "Delete" || String.eqb (key event) "Backspace"
  then
    if String.eqb (tagName event) "INPUT"
       || String.eqb (tagName event) "TEXTAREA"
       || isContentEditable event
    then st
    else
      let nodes := Editor.nodes st in
      let st :=
        Editor.setNodes
          (List.filter (fun node => negb (nodeSelected node)) nodes) st in
      Editor.setEdges
        (List.filter
           (fun edge =>
              let sourceExists :=
                existsb (fun n => String.eqb (id n) (source edge)
                                  && negb (nodeSelected n)) nodes in
              let targetExists :=
                existsb (fun n => String.eqb (id n) (target edge)
                                  && negb (nodeSelected n)) nodes in
              sourceExists && targetExists && negb (edgeSelected edge))
           (Editor.edges st))
        st
  else st.

(** [onConnect] on the editor, with the canvas library's [addEdge]. *)
Definition connect (addEdge : Conn.t → list Edge → list Edge)
    (params : Conn.t) (st : Editor.t) : Editor.t :=
  Editor.setEdges (onConnect addEdge params (Editor.edges st)) st.

(** [handleExpandNode]: the listener of the [expandNode] event. *)
Definition handleExpandNode (nodeId : string) (st : Editor.t) : Editor.t :=
  match find (hasId nodeId) (Editor.nodes st) with
  | Some node =>
      Editor.setNodeParameters (default ∅ (parameters (data node)))
        (Editor.setExpandedNode (Some nodeId) st)
  | None => st
  end.

(** The [onChange] of a field of the parameter form. *)
Definition changeParameter (fieldKey value : string) (st : Editor.t)
    : Editor.t :=
  Editor.setNodeParameters (<[fieldKey := value]> (Editor.nodeParameters st)) st.

Definition withParameters (p : gmap string string) (node : Node) : Node :=
  {| id := id node;
     data := {| label := label (data node);
                nodeType := nodeType (data node);
                parameters := Some p |} |}.

Definition withLabel (l : string) (node : Node) : Node :=
  {| id := id node;
     data := {| label := l;
                nodeType := nodeType (data node);
                parameters := parameters (data node) |} |}.

(** [updateNodeParameters] *)
Definition updateNodeParameters (st : Editor.t) : Editor.t :=
  let st :=
    if truthy (Editor.expandedNode st) then
      Editor.setNodes
        (map (fun node =>
                if bool_decide (Some (id node) = Editor.expandedNode st)
                then withParameters (Editor.nodeParameters st) node
                else node)
             (Editor.nodes st)) st
    else st in
  Editor.setNodeParameters ∅ (Editor.setExpandedNode None st).

(** [cancelParameterEdit] *)
Definition cancelParameterEdit (st : Editor.t) : Editor.t :=
  Editor.setTestOutput EmptyString
    (Editor.setNodeParameters ∅ (Editor.setExpandedNode None st)).

(** [onNodeDoubleClick] *)
Definition onNodeDoubleClick (node : Node) (st : Editor.t) : Editor.t :=
  Editor.setNodeName (label (data node))
    (Editor.setEditingNode (Some (id node)) st).

(** [s.trim()] is not empty: some character of [s] is not white space.
    White space is the white space of ASCII; [trim] also removes the
    spaces outside ASCII, such as the no-break space. *)
Fixpoint notBlank (s : string) : bool :=
  match s with
  | String c s' => negb (isWhiteSpace c) || notBlank s'
  | EmptyString => false
  end.

(** [updateNodeName] *)
Definition updateNodeName (st : Editor.t) : Editor.t :=
  let st :=
    if truthy (Editor.editingNode st) && notBlank (Editor.nodeName st) then
      Editor.setNodes
        (map (fun node =>
                if bool_decide (Some (id node) = Editor.editingNode st)
                then withLabel (Editor.nodeName st) node
                else node)
             (Editor.nodes st)) st
    else st in
  Editor.setNodeName EmptyString (Editor.setEditingNode None st).

(** [cancelEdit] *)
Definition cancelEdit (st : Editor.t) : Editor.t :=
  Editor.setNodeName EmptyString (Editor.setEditingNode None st).


(** [exportWorkflow]: the document handed to [JSON.stringify] for the
    download, and the state with the log entry added. *)
Definition exportWorkflow (st : Editor.t) : Workflow * Editor.t :=
  let workflow :=
    {| workflowNodes := Some (Editor.nodes st);
       workflowEdges := Some (Editor.edges st);
       nodeIdCounter := Some (Editor.nodeIdRef st) |} in
  (workflow,
   Editor.setLogMessages
     (Editor.logMessages st ++
      [{| nodeId := "system"; nodeName := "System";
          output := "‚úÖ Workflow exported successfully with "
                    +:+ pretty (length (Editor.nodes st)) +:+ " nodes and "
                    +:+ pretty (length (Editor.edges st))
                    +:+ " connections" |}]) st).

Definition importFailed (message : string) : LogEntry :=
  {| nodeId := "system"; nodeName := "System";
     output := "‚ùå Failed to import workflow: " +:+ message |}.

(** [importWorkflow] with the [onload] handler of its reader.  [file] is
    [None] when no file was chosen; otherwise it is what [JSON.parse] makes
    of the content: the message of the error it throws, or the document. *)
Definition importWorkflow (file : option (string + Workflow))
    (st : Editor.t) : Editor.t :=
  match file with
  | None => st
  | Some (inl message) => Editor.setLogMessages [importFailed message] st
  | Some (inr workflow) =>
    match workflowNodes workflow, workflowEdges workflow with
    | Some nodes, Some edges =>
      let st := Editor.setEdges edges (Editor.setNodes nodes st) in
      let st :=
        match nodeIdCounter workflow with
        | Some counter => Editor.setNodeIdRef counter st
        | None => st
        end in
      Editor.setLogMessages
        [{| nodeId := "system"; nodeName := "System";
            output := "‚úÖ Workflow imported successfully: "
                      +:+ pretty (length nodes) +:+ " nodes and "
                      +:+ pretty (length edges)
                      +:+ " connections loaded" |}] st
    | _, _ =>
      Editor.setLogMessages [importFailed "Invalid workflow file format"] st
    end
  end.

(** ** The test buttons of the parameter form *)

(** [nodeParameters.key || dflt] *)
Definition field (st : Editor.t) (key dflt : string) : string :=
  orElse (Editor.nodeParameters st !! key) dflt.

(** The frame shared by the four test functions: [setIsTestLoading(true)],
    the output cleared, the call, [setTestOutput], and in [finally]
    [setIsTestLoading(false)]. *)
Definition runTest (fetch : Request → Response) (req : Request)
    (show : Response → string) (st : Editor.t) : Editor.t :=
  let st := Editor.setTestOutput EmptyString (Editor.setIsTestLoading true st) in
  Editor.setIsTestLoading false (Editor.setTestOutput (show (fetch req)) st).

(** [testLLMNode] *)
Definition testLLMNode (fetch : Request → Response) (st : Editor.t)
    : Editor.t :=
  runTest fetch
    (GeminiRequest (field st "systemInstruction" EmptyString)
                   (field st "userMessage" EmptyString)
                   (field st "temperature" "0.7")
                   (field st "maxOutputTokens" "1024")
                   (field st "topK" "40"))
    (fun r =>
       match r with
       | Settled true body => Resp.output body
       | Settled false body =>
           "Error: " +:+ orElse (Resp.error body) "Failed to get response"
       | Thrown message => "Error: " +:+ message
       end) st.

(** [testWebScrapingNode] *)
Definition testWebScrapingNode (fetch : Request → Response) (st : Editor.t)
    : Editor.t :=
  runTest fetch
    (WebScrapeRequest (field st "url" EmptyString)
                      (field st "instruction" EmptyString))
    (fun r =>
       match r with
       | Settled true body =>
           "‚úÖ Extraction Complete" +:+ nl +:+ nl
           +:+ "URL: " +:+ Resp.url body +:+ nl
           +:+ "Instruction: " +:+ Resp.instruction body +:+ nl +:+ nl
           +:+ "--- Extracted Data ---" +:+ nl
           +:+ Resp.data body
       | Settled false body =>
           "Error: " +:+
           orElse (Resp.error body)
                  (orElse (Resp.details body) "Failed to extract data")
       | Thrown message => "Error: " +:+ message
       end) st.

(** [testEmbeddingGeneratorNode] *)
Definition testEmbeddingGeneratorNode (fetch : Request → Response)
    (st : Editor.t) : Editor.t :=
  runTest fetch
    (PineconeEmbed (field st "text" EmptyString)
                   (field st "source" EmptyString)
                   (field st "info" EmptyString)
                   (field st "tag" EmptyString)
                   (field st "workflow" EmptyString)
                   (orElse (Editor.expandedNode st) EmptyString))
    (fun r =>
       match r with
       | Settled true body =>
           "‚úÖ Embedding Generated & Stored" +:+ nl +:+ nl
           +:+ "ID: " +:+ Resp.id body +:+ nl
           +:+ "Dimension: " +:+ Resp.dimension body +:+ nl +:+ nl
           +:+ "--- Metadata ---" +:+ nl
           +:+ Resp.metadata body
       | Settled false body =>
           "Error: " +:+
           orElse (Resp.error body)
                  (orElse (Resp.details body) "Failed to generate embedding")
       | Thrown message => "Error: " +:+ message
       end) st.

(** [testSimilaritySearchNode] *)
Definition testSimilaritySearchNode (fetch : Request → Response)
    (st : Editor.t) : Editor.t :=
  runTest fetch
    (PineconeSearch (field st "query" EmptyString) (field st "topK" "5"))
    (fun r =>
       match r with
       | Settled true body =>
           "‚úÖ Similarity Search Complete" +:+ nl +:+ nl
           +:+ "Query: " +:+ Resp.query body +:+ nl
           +:+ "Results Found: " +:+ Resp.resultsCount body +:+ nl +:+ nl
           +:+ "--- Top " +:+ Resp.topK body +:+ " Matches ---"
           +:+ nl +:+ nl
           +:+ String.concat EmptyString
                 (imap (fun index m =>
                          pretty (index + 1) +:+ ". Score: "
                          +:+ Resp.score m +:+ nl
                          +:+ "   Text: "
                          +:+ String.substring 0 100 (Resp.text m)
                          +:+ "..." +:+ nl
                          +:+ (if truthy (Resp.source m)
                               then "   Source: "
                                    +:+ default EmptyString (Resp.source m)
                                    +:+ nl
                               else EmptyString)
                          +:+ (if truthy (Resp.tag m)
                               then "   Tag: "
                                    +:+ default EmptyString (Resp.tag m)
                                    +:+ nl
                               else EmptyString)
                          +:+ nl)
                       (Resp.matches body))
       | Settled false body =>
           "Error: " +:+
           orElse (Resp.error body)
                  (orElse (Resp.details body) "Failed to search")
       | Thrown message => "Error: " +:+ message
       end) st.

(** The test button that the parameter form shows for a node type. *)
Definition testButton (nodeType : string)
    : option ((Request → Response) → Editor.t → Editor.t) :=
  if String.eqb nodeType "LLM" then Some testLLMNode
  else if String.eqb nodeType "Web Scraping" then Some testWebScrapingNode
  else if String.eqb nodeType "Embedding Generator"
  then Some testEmbeddingGeneratorNode
  else if String.eqb nodeType "Similarity Search"
  then Some testSimilaritySearchNode
  else None.


(** ** Editing sessions *)

(** What the user can do to the editor. *)
Inductive Action :=
| AddNode (nodeType : string)
| KeyDown (nodeSelected : Node → bool) (edgeSelected : Edge → bool)
          (event : KeyEvent)
| Connect (params : Conn.t)
| ExpandNode (nodeId : string)
| ChangeParameter (fieldKey value : string)
| UpdateNodeParameters
| CancelParameterEdit
| DoubleClick (node : Node)
| ChangeName (value : string)
| UpdateNodeName
| CancelEdit
| Export
| Import (file : option (string + Workflow)).

Definition perform (addEdge : Conn.t → list Edge → list Edge)
    (a : Action) (st : Editor.t) : Editor.t :=
  match a with
  | AddNode nodeType => addNode nodeType st
  | KeyDown nodeSelected edgeSelected event =>
      handleKeyDown nodeSelected edgeSelected event st
  | Connect params => connect addEdge params st
  | ExpandNode nodeId => handleExpandNode nodeId st
  | ChangeParameter fieldKey value => changeParameter fieldKey value st
  | UpdateNodeParameters => updateNodeParameters st
  | CancelParameterEdit => cancelParameterEdit st
  | DoubleClick node => onNodeDoubleClick node st
  | ChangeName value => Editor.setNodeName value st
  | UpdateNodeName => updateNodeName st
  | CancelEdit => cancelEdit st
  | Export => snd (exportWorkflow st)
  | Import file => importWorkflow file st
  end.

Definition session (addEdge : Conn.t → list Edge → list Edge)
    (actions : list Action) (st : Editor.t) : Editor.t :=
  fold_left (fun st a => perform addEdge a st) actions st.

(** Every node id was issued by [getNodeId] below the counter. *)
Definition idsIssued (counter : nat) (nodes : list Node) : Prop :=
  ∀ n, In n nodes → ∃ k, k < counter ∧ id n = "node_" +:+ pretty k.

Definition graphInvariant (counter : nat) (nodes : list Node)
    (edges : list Edge) : Prop :=
  idsIssued counter nodes ∧ NoDup (map id nodes) ∧ atMostOneOutgoing edges.

Definition editorInvariant (st : Editor.t) : Prop :=
  graphInvariant (Editor.nodeIdRef st) (Editor.nodes st) (Editor.edges st).

(** A workflow file as the editor itself writes it. *)
Definition ownWorkflow (w : Workflow) : Prop :=
  match workflowNodes w, workflowEdges w, nodeIdCounter w with
  | Some nodes, Some edges, Some counter => graphInvariant counter nodes edges
  | _, _, _ => False
  end.

(** Files read by [Import] are broken ones or the editor's own. *)
Definition ownAction (a : Action) : Prop :=
  match a with
  | Import (Some (inr w)) =>
      ownWorkflow w ∨ workflowNodes w = None ∨ workflowEdges w = None
  | _ => True
  end.

(** No edge points to or from a node that is not there. *)
Definition closedEdges (nodes : list Node) (edges : list Edge) : Prop :=
  ∀ e, In e edges →
       (∃ n, In n nodes ∧ id n = source e) ∧
       (∃ n, In n nodes ∧ id n = target e).

(** The stored parameters of [n] read like the fields of the form. *)
Definition sameParameters (n : Node) (st : Editor.t) : Prop :=
  ∀ key, parameters (data n) ≫= (fun p => p !! key)
         = Editor.nodeParameters st !! key.

(** A function applied to every node of the resolver's answer. *)
Definition mapResolved {B} (g : Node → B) (r : option (option (list Node)))
    : option (option (list B)) :=
  option_map (option_map (map g)) r.


(** A short session: three nodes, two connections, then the first edge is
    replaced and the middle node deleted. *)
Definition sampleSession : list Action :=
  [AddNode "Start"; AddNode "LLM"; AddNode "End";
   Connect (Conn.mk None "node_0" "node_1" None None);
   Connect (Conn.mk None "node_1" "node_2" None None);
   ExpandNode "node_1"; ChangeParameter "userMessage" "Hi";
   UpdateNodeParameters;
   Connect (Conn.mk None "node_0" "node_2" None None);
   KeyDown (hasId "node_1") (fun _ => false)
           (mkKeyEvent "Delete" "BODY" false);
   Export].


(** ** The API routes *)

(** What a route answers, as the client sees it: the status and the JSON
    body.  [response.ok] holds for the statuses 200 to 299. *)
Record HttpResponse := mkHttpResponse {
  status : nat;
  body : Resp.Data
}.

Definition isOk (status : nat) : bool :=
  Nat.leb 200 status && Nat.leb status 299.

Definition toResponse (r : HttpResponse) : Response :=
  Settled (isOk (status r)) (body r).

(** A body without any field: a template literal prints [undefined] for a
    field that is not there. *)
Definition noBody : Resp.Data :=
  {| Resp.output := "undefined"; Resp.error := None; Resp.details := None;
     Resp.url := "undefined"; Resp.instruction := "undefined";
     Resp.data := "undefined"; Resp.id := "undefined";
     Resp.dimension := "undefined"; Resp.metadata := "undefined";
     Resp.query := "undefined"; Resp.resultsCount := "undefined";
     Resp.topK := "undefined"; Resp.matches := [] |}.

(** [NextResponse.json({ error, details }, { status })] *)
Definition errorBody (error : string) (details : option string) : Resp.Data :=
  {| Resp.output := Resp.output noBody;
     Resp.error := Some error; Resp.details := details;
     Resp.url := Resp.url noBody; Resp.instruction := Resp.instruction noBody;
     Resp.data := Resp.data noBody; Resp.id := Resp.id noBody;
     Resp.dimension := Resp.dimension noBody;
     Resp.metadata := Resp.metadata noBody;
     Resp.query := Resp.query noBody;
     Resp.resultsCount := Resp.resultsCount noBody;
     Resp.topK := Resp.topK noBody; Resp.matches := Resp.matches noBody |}.

Definition errorResponse (status : nat) (error : string)
    (details : option string) : HttpResponse :=
  {| status := status; body := errorBody error details |}.

(** *** The generation route, [POST /api/gemini] *)

Module Gemini.
(** The fields read from the request body; [None] is a missing field. *)
Record Body := mkBody {
  systemInstruction : option string;
  systemPrompt : option string;
  userMessage : option string;
  temperature : option string;
  maxOutputTokens : option string;
  topK : option string
}.

(** The call to the generative language service. *)
Record Call := mkCall {
  apiKey : string;
  text : string;
  callTemperature : number;
  callTopK : number;
  topP : number;
  callMaxOutputTokens : number;
  callSystemInstruction : option string
}.

(** What the service answers: a status with the text of the first
    candidate (if there is one) and the rendering of the body, or an error
    thrown by [fetch] or by [response.json()]. *)
Inductive Reply :=
| Replied (status : nat) (candidate : option string) (errorData : string)
| Failed (message : string).
End Gemini.

(** The route up to the call: an early answer or the call to make. *)
Definition geminiPrepare (parseFloat : string → number)
    (apiKey : option string) (b : Gemini.Body) : HttpResponse + Gemini.Call :=
  if negb (truthy (Gemini.userMessage b)) then
    inl (errorResponse 400 "userMessage is required." None)
  else if negb (truthy apiKey) then
    inl (errorResponse 500 "GEMINI_API_KEY not configured" None)
  else
    let instruction :=
      if truthy (Gemini.systemInstruction b) then Gemini.systemInstruction b
      else Gemini.systemPrompt b in
    inr {| Gemini.apiKey := default EmptyString apiKey;
           Gemini.text := default EmptyString (Gemini.userMessage b);
           Gemini.callTemperature :=
             parsedTemperature parseFloat (Gemini.temperature b);
           Gemini.callTopK := parsedTopK (Gemini.topK b);
           Gemini.topP := Num (95 # 100);
           Gemini.callMaxOutputTokens :=
             parsedMaxOutputTokens (Gemini.maxOutputTokens b);
           Gemini.callSystemInstruction :=
             if truthy instruction then instruction else None |}.

(** [POST]; [request] is what [request.json()] gives: the message of the
    error it throws, or the body. *)
Definition geminiRoute (parseFloat : string → number)
    (apiKey : option string) (service : Gemini.Call → Gemini.Reply)
    (request : string + Gemini.Body) : HttpResponse :=
  match request with
  | inl message => errorResponse 500 "Internal server error" (Some message)
  | inr b =>
    match geminiPrepare parseFloat apiKey b with
    | inl early => early
    | inr call =>
      match service call with
      | Gemini.Failed message =>
          errorResponse 500 "Internal server error" (Some message)
      | Gemini.Replied status candidate errorData =>
          if negb (isOk status) then
            errorResponse status "Gemini API error" (Some errorData)
          else
            {| status := 200;
               body :=
                 {| Resp.output := orElse candidate "No response generated";
                    Resp.error := None; Resp.details := None;
                    Resp.url := Resp.url noBody;
                    Resp.instruction := Resp.instruction noBody;
                    Resp.data := Resp.data noBody; Resp.id := Resp.id noBody;
                    Resp.dimension := Resp.dimension noBody;
                    Resp.metadata := Resp.metadata noBody;
                    Resp.query := Resp.query noBody;
                    Resp.resultsCount := Resp.resultsCount noBody;
                    Resp.topK := Resp.topK noBody;
                    Resp.matches := Resp.matches noBody |} |}
      end
    end
  end.


(** *** The vector route, [POST /api/pinecone] *)

Module Pinecone.
(** The fields read from the request body. *)
Record Body := mkBody {
  action : option string;
  text : option string;
  source : option string;
  info : option string;
  tag : option string;
  workflow : option string;
  nodeId : option string;
  query : option string;
  topK : option string
}.

(** The first entry of the answer of [pc.inference.embed]. *)
Record Embedding := mkEmbedding {
  vectorType : string;
  values : option (list Q)
}.

(** A value of the metadata of a record, as far as the code tells values
    apart: a string, or a value of another type (a number, a boolean, a
    list of strings) with its truthiness and the text that a template
    literal prints for it. *)
Inductive Value :=
| Text (s : string)
| Other (isTruthy : bool) (shown : string).

(** A match of [index.query].  [hitScore] is the score as [toFixed(4)]
    prints it; it is [None] for a match without score, or with a score
    that JSON does not carry as a number: [toFixed] cannot be called on
    what the client then gets.  Nothing in the route checks the types of
    the score or of the metadata. *)
Record Hit := mkHit {
  hitId : string;
  hitScore : option string;
  hitMetadata : option (gmap string Value)
}.

(** The vector service.  A call either throws, with a message, or answers.
    [embed] gives the first entry of the data, if any; [upsert] stores a
    record in an index; [search] gives the matches, if the field is there. *)
Record Service := mkService {
  embed : string → string + option Embedding;
  upsert : string → string → list Q → gmap string string → option string;
  search : string → list Q → number → string + option (list Hit)
}.

(** A match as the route returns it. *)
Record Found := mkFound {
  foundId : string;
  foundScore : option string;
  foundText : Value;
  foundSource : Value;
  foundInfo : Value;
  foundTag : Value;
  foundWorkflow : Value;
  foundNodeId : Value;
  foundTimestamp : Value
}.

(** What the route answers. *)
Inductive Result :=
| Error (status : nat) (error : string) (details : option string)
| Stored (id : string) (dimension : nat) (metadata : gmap string string)
| Matches (query : string) (topK : number) (resultsCount : nat)
          (matches : list Found).

(** What the route does to the service, in order. *)
Inductive Op :=
| Embed (text : string)
| Upsert (index : string) (id : string) (metadata : gmap string string)
| Search (index : string) (topK : number).
End Pinecone.

(** [generateEmbedding], given the client that [getPineconeClient] built. *)
Definition generateEmbedding (service : Pinecone.Service) (text : string)
    : string + list Q :=
  match Pinecone.embed service text with
  | inl message => inl message
  | inr None => inl "Failed to generate embedding"
  | inr (Some embeddingData) =>
    match Pinecone.values embeddingData with
    | Some values =>
        if String.eqb (Pinecone.vectorType embeddingData) "dense"
        then inr values
        else inl "Unexpected embedding format"
    | None => inl "Unexpected embedding format"
    end
  end.

(** The metadata stored with an embedding; [timestamp] is the clock.  The
    characters of a string stand for the code units that [substring]
    counts. *)
Definition embedMetadata (timestamp : string) (b : Pinecone.Body)
    : gmap string string :=
  let metadata : gmap string string :=
    {[ "text" := String.substring 0 (40 * 1000)
                   (default EmptyString (Pinecone.text b));
       "nodeId" := orElse (Pinecone.nodeId b) "unknown";
       "timestamp" := timestamp ]} in
  let metadata :=
    if truthy (Pinecone.source b)
    then <["source" := default EmptyString (Pinecone.source b)]> metadata
    else metadata in
  let metadata :=
    if truthy (Pinecone.info b)
    then <["info" := default EmptyString (Pinecone.info b)]> metadata
    else metadata in
  let metadata :=
    if truthy (Pinecone.tag b)
    then <["tag" := default EmptyString (Pinecone.tag b)]> metadata
    else metadata in
  if truthy (Pinecone.workflow b)
  then <["workflow" := default EmptyString (Pinecone.workflow b)]> metadata
  else metadata.

Definition valueTruthy (v : Pinecone.Value) : bool :=
  match v with
  | Pinecone.Text s => negb (String.eqb s EmptyString)
  | Pinecone.Other isTruthy _ => isTruthy
  end.

(** What a template literal prints for a value. *)
Definition valueText (v : Pinecone.Value) : string :=
  match v with
  | Pinecone.Text s => s
  | Pinecone.Other _ shown => shown
  end.

(** [match.metadata?.key], the empty string when it is missing or falsy;
    a truthy value is passed on as it is, whatever its type. *)
Definition hitField (h : Pinecone.Hit) (key : string) : Pinecone.Value :=
  match Pinecone.hitMetadata h ≫= (fun m => m !! key) with
  | Some v => if valueTruthy v then v else Pinecone.Text EmptyString
  | None => Pinecone.Text EmptyString
  end.

Definition foundOf (h : Pinecone.Hit) : Pinecone.Found :=
  {| Pinecone.foundId := Pinecone.hitId h;
     Pinecone.foundScore := Pinecone.hitScore h;
     Pinecone.foundText := hitField h "text";
     Pinecone.foundSource := hitField h "source";
     Pinecone.foundInfo := hitField h "info";
     Pinecone.foundTag := hitField h "tag";
     Pinecone.foundWorkflow := hitField h "workflow";
     Pinecone.foundNodeId := hitField h "nodeId";
     Pinecone.foundTimestamp := hitField h "timestamp" |}.

Definition pineconeFailed (message : string) : Pinecone.Result :=
  Pinecone.Error 500 "Pinecone operation failed" (Some message).

(** [POST].  [apiKey] and [indexName] are the environment; [timestamp],
    [millis] and [random] are the readings of the clock and of
    [Math.random] that go into the metadata and the id.  The answer comes
    with the calls made to the service. *)
Definition pineconeRoute (apiKey indexName : option string)
    (timestamp millis random : string) (service : Pinecone.Service)
    (request : string + Pinecone.Body) : Pinecone.Result * list Pinecone.Op :=
  match request with
  | inl message => (pineconeFailed message, [])
  | inr b =>
    let index := orElse indexName "agent-builder" in
    if bool_decide (Pinecone.action b = Some "embed") then
      if negb (truthy (Pinecone.text b)) then
        (Pinecone.Error 400 "Text is required for embedding" None, [])
      else if negb (truthy apiKey) then
        (pineconeFailed "PINECONE_API_KEY is not configured", [])
      else
        let text := default EmptyString (Pinecone.text b) in
        match generateEmbedding service text with
        | inl message => (pineconeFailed message, [Pinecone.Embed text])
        | inr embedding =>
          let metadata := embedMetadata timestamp b in
          let id := "emb_" +:+ millis +:+ "_" +:+ random in
          let ops := [Pinecone.Embed text; Pinecone.Upsert index id metadata] in
          match Pinecone.upsert service index id embedding metadata with
          | Some message => (pineconeFailed message, ops)
          | None => (Pinecone.Stored id (length embedding) metadata, ops)
          end
        end
    else if bool_decide (Pinecone.action b = Some "search") then
      if negb (truthy (Pinecone.query b)) then
        (Pinecone.Error 400 "Query is required for similarity search" None, [])
      else if negb (truthy apiKey) then
        (pineconeFailed "PINECONE_API_KEY is not configured", [])
      else
        let query := default EmptyString (Pinecone.query b) in
        let topKResults := topKResults (Pinecone.topK b) in
        match generateEmbedding service query with
        | inl message => (pineconeFailed message, [Pinecone.Embed query])
        | inr queryEmbedding =>
          let ops := [Pinecone.Embed query; Pinecone.Search index topKResults] in
          match Pinecone.search service index queryEmbedding topKResults with
          | inl message => (pineconeFailed message, ops)
          | inr hits =>
            let matches := map foundOf (default [] hits) in
            (Pinecone.Matches query topKResults (length matches) matches, ops)
          end
        end
    else
      (Pinecone.Error 400 "Invalid action. Use 'embed' or 'search'" None, [])
  end.

(** *** The extraction route, [POST /api/web-scrape] *)

Module Scrape.
(** The browser session of the Stagehand library: each call either throws,
    with a message, or succeeds; [extract] gives the rendering of what it
    extracted. *)
Record Browser := mkBrowser {
  init : option string;
  goto : string → option string;
  extract : string → string + string;
  close : option string
}.

Inductive Op :=
| Init
| Goto (url : string)
| Extract (instruction : string)
| Close.

Inductive Result :=
| Error (status : nat) (error : string) (details : option string)
| Scraped (url instruction data : string).
End Scrape.

Definition scrapeFailed (message : string) : Scrape.Result :=
  Scrape.Error 500 "Web scraping failed" (Some message).

(** [POST].  The three keys are the environment.  The answer comes with the
    calls made on the browser session. *)
Definition webScrapeRoute (apiKey projectId geminiApiKey : option string)
    (browser : Scrape.Browser) (request : string + option string * option string)
    : Scrape.Result * list Scrape.Op :=
  match request with
  | inl message => (scrapeFailed message, [])
  | inr (url, instruction) =>
    if negb (truthy url) || negb (truthy instruction) then
      (Scrape.Error 400 "url and instruction are required" None, [])
    else if negb (truthy apiKey) || negb (truthy projectId) then
      (Scrape.Error 500
         "BROWSERBASE_API_KEY and BROWSERBASE_PROJECT_ID not configured" None,
       [])
    else if negb (truthy geminiApiKey) then
      (Scrape.Error 500 "GEMINI_API_KEY not configured" None, [])
    else
      let url := default EmptyString url in
      let instruction := default EmptyString instruction in
      match Scrape.init browser with
      | Some message => (scrapeFailed message, [Scrape.Init])
      | None =>
        match Scrape.goto browser url with
        | Some message => (scrapeFailed message, [Scrape.Init; Scrape.Goto url])
        | None =>
          match Scrape.extract browser instruction with
          | inl message =>
              (scrapeFailed message,
               [Scrape.Init; Scrape.Goto url; Scrape.Extract instruction])
          | inr result =>
            let ops := [Scrape.Init; Scrape.Goto url;
                        Scrape.Extract instruction; Scrape.Close] in
            match Scrape.close browser with
            | Some message => (scrapeFailed message, ops)
            | None => (Scrape.Scraped url instruction result, ops)
            end
          end
        end
      end
  end.


(** *** The routes behind [fetch] *)

(** The environment variables of the server. *)
Record Env := mkEnv {
  GEMINI_API_KEY : option string;
  PINECONE_API_KEY : option string;
  PINECONE_INDEX_NAME : option string;
  BROWSERBASE_API_KEY : option string;
  BROWSERBASE_PROJECT_ID : option string
}.

(** The services behind the routes and the readings of clock and random
    generator, at the time of one request. *)
Record Backend := mkBackend {
  geminiService : Gemini.Call → Gemini.Reply;
  pineconeService : Pinecone.Service;
  browser : Scrape.Browser;
  timestamp : string;
  millis : string;
  random : string
}.

(** The JSON bodies that the component posts. *)
Definition geminiBodyOf
    (systemInstruction userMessage temperature maxOutputTokens topK : string)
    : Gemini.Body :=
  {| Gemini.systemInstruction := Some systemInstruction;
     Gemini.systemPrompt := None;
     Gemini.userMessage := Some userMessage;
     Gemini.temperature := Some temperature;
     Gemini.maxOutputTokens := Some maxOutputTokens;
     Gemini.topK := Some topK |}.

Definition embedBodyOf (text source info tag workflow nodeId : string)
    : Pinecone.Body :=
  {| Pinecone.action := Some "embed";
     Pinecone.text := Some text; Pinecone.source := Some source;
     Pinecone.info := Some info; Pinecone.tag := Some tag;
     Pinecone.workflow := Some workflow; Pinecone.nodeId := Some nodeId;
     Pinecone.query := None; Pinecone.topK := None |}.

Definition searchBodyOf (query topK : string) : Pinecone.Body :=
  {| Pinecone.action := Some "search";
     Pinecone.text := None; Pinecone.source := None; Pinecone.info := None;
     Pinecone.tag := None; Pinecone.workflow := None; Pinecone.nodeId := None;
     Pinecone.query := Some query; Pinecone.topK := Some topK |}.

(** What the client can print of a match of a search answer: the body of
    its [forEach] calls [match.score.toFixed(4)] and
    [match.text.substring(0, 100)], so it needs a score that is a number
    and a text that is a string; for any other match it throws.  A source
    or tag is printed when it is truthy.  (A truthy value that prints as
    the empty text, such as an empty list, gets an empty line in the
    component; here it gets none.) *)
Definition matchOf (f : Pinecone.Found) : option Resp.Match :=
  match Pinecone.foundScore f, Pinecone.foundText f with
  | Some score, Pinecone.Text text =>
      Some {| Resp.score := score;
              Resp.text := text;
              Resp.source :=
                if valueTruthy (Pinecone.foundSource f)
                then Some (valueText (Pinecone.foundSource f)) else None;
              Resp.tag :=
                if valueTruthy (Pinecone.foundTag f)
                then Some (valueText (Pinecone.foundTag f)) else None |}
  | _, _ => None
  end.

Definition wellTyped (f : Pinecone.Found) : bool :=
  match matchOf f with
  | Some _ => true
  | None => false
  end.

Section Server.
(** JS built-ins: [parseFloat], the text of a number in a template literal,
    [JSON.stringify(_, null, 2)] of a metadata object, and the message of
    the [TypeError] that the engine throws when the client reads a match
    that is not well typed. *)
Variable parseFloat : string → number.
Variable numberText : number → string.
Variable stringify : gmap string string → string.
Variable typeError : Pinecone.Found → string.

(** The answer of the vector route as the [try] block of the client gets
    it: decoded, or, for a search answer holding a match that is not well
    typed, as the error thrown at the first such match. *)
Definition pineconeResponse (r : Pinecone.Result) : Response :=
  match r with
  | Pinecone.Error status error details =>
      toResponse (errorResponse status error details)
  | Pinecone.Stored id dimension metadata =>
      toResponse
        {| status := 200;
           body :=
             {| Resp.output := Resp.output noBody;
                Resp.error := None; Resp.details := None;
                Resp.url := Resp.url noBody;
                Resp.instruction := Resp.instruction noBody;
                Resp.data := Resp.data noBody;
                Resp.id := id;
                Resp.dimension := pretty dimension;
                Resp.metadata := stringify metadata;
                Resp.query := Resp.query noBody;
                Resp.resultsCount := Resp.resultsCount noBody;
                Resp.topK := Resp.topK noBody;
                Resp.matches := Resp.matches noBody |} |}
  | Pinecone.Matches query topK resultsCount matches =>
      match find (fun f => negb (wellTyped f)) matches with
      | Some f => Thrown (typeError f)
      | None =>
        toResponse
          {| status := 200;
             body :=
               {| Resp.output := Resp.output noBody;
                  Resp.error := None; Resp.details := None;
                  Resp.url := Resp.url noBody;
                  Resp.instruction := Resp.instruction noBody;
                  Resp.data := Resp.data noBody;
                  Resp.id := Resp.id noBody;
                  Resp.dimension := Resp.dimension noBody;
                  Resp.metadata := Resp.metadata noBody;
                  Resp.query := query;
                  Resp.resultsCount := pretty resultsCount;
                  Resp.topK := numberText topK;
                  Resp.matches := omap matchOf matches |} |}
      end
  end.

(** The answer of the extraction route as the client decodes it. *)
Definition scrapeResponse (r : Scrape.Result) : HttpResponse :=
  match r with
  | Scrape.Error status error details => errorResponse status error details
  | Scrape.Scraped url instruction data =>
      {| status := 200;
         body :=
           {| Resp.output := Resp.output noBody;
              Resp.error := None; Resp.details := None;
              Resp.url := url;
              Resp.instruction := instruction;
              Resp.data := data;
              Resp.id := Resp.id noBody;
              Resp.dimension := Resp.dimension noBody;
              Resp.metadata := Resp.metadata noBody;
              Resp.query := Resp.query noBody;
              Resp.resultsCount := Resp.resultsCount noBody;
              Resp.topK := Resp.topK noBody;
              Resp.matches := Resp.matches noBody |} |}
  end.

(** The three routes as the remote of a run: each request of the component
    reaches its route, and the answer of the route reaches the component. *)
Definition server (env : Env) (backend : list Request → Backend) : Remote :=
  fun history req =>
    let w := backend history in
    match req with
    | GeminiRequest systemInstruction userMessage temperature
                    maxOutputTokens topK =>
        toResponse
          (geminiRoute parseFloat (GEMINI_API_KEY env) (geminiService w)
             (inr (geminiBodyOf systemInstruction userMessage temperature
                                maxOutputTokens topK)))
    | WebScrapeRequest url instruction =>
        toResponse
          (scrapeResponse
             (fst (webScrapeRoute (BROWSERBASE_API_KEY env)
                     (BROWSERBASE_PROJECT_ID env) (GEMINI_API_KEY env)
                     (browser w) (inr (Some url, Some instruction)))))
    | PineconeEmbed text source info tag workflow nodeId =>
        pineconeResponse
          (fst (pineconeRoute (PINECONE_API_KEY env)
                  (PINECONE_INDEX_NAME env) (timestamp w) (millis w)
                  (random w) (pineconeService w)
                  (inr (embedBodyOf text source info tag workflow nodeId))))
    | PineconeSearch query topK =>
        pineconeResponse
          (fst (pineconeRoute (PINECONE_API_KEY env)
                  (PINECONE_INDEX_NAME env) (timestamp w) (millis w)
                  (random w) (pineconeService w)
                  (inr (searchBodyOf query topK))))
    end.
End Server.

(** The answer of the vector route to the search of node [n], the
    requests sent before being [history]. *)
Definition searchAnswer (env : Env) (backend : list Request → Backend)
    (history : list Request) (n : Node) : Pinecone.Result :=
  fst (pineconeRoute (PINECONE_API_KEY env) (PINECONE_INDEX_NAME env)
         (timestamp (backend history)) (millis (backend history))
         (random (backend history)) (pineconeService (backend history))
         (inr (searchBodyOf (param n "query" EmptyString)
                            (param n "topK" "5")))).

(** The error texts of the routes. *)
Definition routeErrors : list string :=
  ["userMessage is required."; "GEMINI_API_KEY not configured";
   "Gemini API error"; "Internal server error";
   "url and instruction are required";
   "BROWSERBASE_API_KEY and BROWSERBASE_PROJECT_ID not configured";
   "Web scraping failed";
   "Text is required for embedding";
   "Query is required for similarity search";
   "Invalid action. Use 'embed' or 'search'";
   "Pinecone operation failed"].

(** The required text of a service node is blank; the error its route
    answers then. *)
Definition blankRequired (n : Node) : option string :=
  if hasType "LLM" n then
    if negb (truthy (Some (param n "userMessage" EmptyString)))
    then Some "Error: userMessage is required." else None
  else if hasType "Web Scraping" n then
    if negb (truthy (Some (param n "url" EmptyString)))
       || negb (truthy (Some (param n "instruction" EmptyString)))
    then Some "Error: url and instruction are required" else None
  else if hasType "Embedding Generator" n then
    if negb (truthy (Some (param n "text" EmptyString)))
    then Some "Error: Text is required for embedding" else None
  else if hasType "Similarity Search" n then
    if negb (truthy (Some (param n "query" EmptyString)))
    then Some "Error: Query is required for similarity search" else None
  else None.


(** A server with every key configured, whose services answer every call. *)
Definition sampleEnv : Env :=
  {| GEMINI_API_KEY := Some "gemini-key";
     PINECONE_API_KEY := Some "pinecone-key";
     PINECONE_INDEX_NAME := None;
     BROWSERBASE_API_KEY := Some "browserbase-key";
     BROWSERBASE_PROJECT_ID := Some "project" |}.

Definition sampleBackend (history : list Request) : Backend :=
  {| geminiService := fun _ => Gemini.Replied 200 (Some "Hello") EmptyString;
     pineconeService :=
       {| Pinecone.embed := fun _ =>
            inr (Some {| Pinecone.vectorType := "dense";
                         Pinecone.values := Some [1 # 2; 1 # 4] |});
          Pinecone.upsert := fun _ _ _ _ => None;
          Pinecone.search := fun _ _ _ => inr (Some []) |};
     browser :=
       {| Scrape.init := None; Scrape.goto := fun _ => None;
          Scrape.extract := fun _ => inr "{}"; Scrape.close := None |};
     timestamp := "2024-01-01T00:00:00.000Z";
     millis := "1704067200000";
     random := "k3j9x0q1z" |}.

Definition sampleParseFloat (s : string) : number :=
  if String.eqb s "0.7" then Num (7 # 10) else NaN.

Definition sampleNumberText (x : number) : string :=
  match x with
  | NaN => "NaN"
  | Num q => pretty (Z.to_nat (Qnum q / Zpos (Qden q)))
  end.

Definition sampleStringify (m : gmap string string) : string := "{}".

Definition sampleTypeError (f : Pinecone.Found) : string :=
  match Pinecone.foundScore f with
  | None => "Cannot read properties of undefined (reading 'toFixed')"
  | Some _ => "match.text.substring is not a function"
  end.

Definition sampleServer : Remote :=
  server sampleParseFloat sampleNumberText sampleStringify sampleTypeError
         sampleEnv sampleBackend.

(** The same server over an index that holds a record whose [text] is a
    number: the search finds it. *)
Definition numericTextHit : Pinecone.Hit :=
  {| Pinecone.hitId := "rec_1";
     Pinecone.hitScore := Some "0.9132";
     Pinecone.hitMetadata :=
       Some {[ "text" := Pinecone.Other true "42" ]} |}.

Definition foreignBackend (history : list Request) : Backend :=
  {| geminiService := geminiService (sampleBackend history);
     pineconeService :=
       {| Pinecone.embed := Pinecone.embed (pineconeService (sampleBackend history));
          Pinecone.upsert := Pinecone.upsert (pineconeService (sampleBackend history));
          Pinecone.search := fun _ _ _ => inr (Some [numericTextHit]) |};
     browser := browser (sampleBackend history);
     timestamp := timestamp (sampleBackend history);
     millis := millis (sampleBackend history);
     random := random (sampleBackend history) |}.

Definition foreignServer : Remote :=
  server sampleParseFloat sampleNumberText sampleStringify sampleTypeError
         sampleEnv foreignBackend.

(** Start -> Similarity Search -> End, the search with a query. *)
Definition searchNodes : list Node :=
  [sampleNode "node_0" "Start";
   {| id := "node_1";
      data := {| label := "Node 2"; nodeType := "Similarity Search";
                 parameters := Some {[ "query" := "Hi" ]} |} |};
   sampleNode "node_2" "End"].

Definition searchEdges : list Edge :=
  [sampleEdge "node_0" "node_1"; sampleEdge "node_1" "node_2"].

(** Start -> LLM -> Web Scraping -> End, and a remote that refuses the
    requests for extraction only. *)
Definition scrapeNodes : list Node :=
  [sampleNode "node_0" "Start"; sampleNode "node_1" "LLM";
   sampleNode "node_2" "Web Scraping"; sampleNode "node_3" "End"].

Definition scrapeEdges : list Edge :=
  [sampleEdge "node_0" "node_1"; sampleEdge "node_1" "node_2";
   sampleEdge "node_2" "node_3"].

Definition refusingScrape : Remote :=
  fun _ req =>
    match req with
    | WebScrapeRequest _ _ => Settled false sampleBody
    | _ => Settled true sampleBody
    end.

(** A Start node with the empty id, wired to End. *)
Definition emptyIdNodes : list Node :=
  [sampleNode EmptyString "Start"; sampleNode "node_1" "End"].

Definition emptyIdEdges : list Edge := [sampleEdge EmptyString "node_1"].

(** Two nodes with the id [node_1]: an Input node, and the End node after
    it. *)
Definition sharedIdNodes : list Node :=
  [sampleNode "node_0" "Start"; sampleNode "node_1" "Input";
   sampleNode "node_1" "End"].

Definition sharedIdEdges : list Edge := [sampleEdge "node_0" "node_1"].

(** * Properties of the resolver *)

Lemma hasId_true i n : hasId i n = true ↔ id n = i.
Proof. unfold hasId. apply String.eqb_eq. Qed.

Lemma hasType_true t n : hasType t n = true ↔ nodeType (data n) = t.
Proof. unfold hasType. apply String.eqb_eq. Qed.

Lemma hasType_false t n : hasType t n = false ↔ nodeType (data n) ≠ t.
Proof. unfold hasType. apply String.eqb_neq. Qed.

Lemma truthy_Some s : truthy (Some s) = true ↔ s ≠ EmptyString.
Proof.
  unfold truthy. rewrite negb_true_iff. apply String.eqb_neq.
Qed.

Section Traverse.
Variable nodes : list Node.
Variable adj : gmap string string.

Lemma traverse_eq fuel cur acc :
  traverse nodes adj fuel cur acc =
  match cur with
  | None => Some acc
  | Some cid =>
    if truthy (Some cid) then
      match find (hasId cid) nodes with
      | None => Some acc
      | Some n =>
        if hasType "End" n then Some (acc ++ [n])
        else match fuel with
             | O => None
             | S fuel => traverse nodes adj fuel (adj !! cid) (acc ++ [n])
             end
      end
    else Some acc
  end.
Proof.
  destruct fuel, cur as [cid|]; cbn [traverse]; try done;
    by destruct (truthy (Some cid)).
Qed.

Lemma traverse_walk cur k visited :
  Walk nodes adj cur k visited →
  ∀ fuel acc, k ≤ fuel →
    traverse nodes adj fuel cur acc = Some (acc ++ visited).
Proof.
  induction 1 as [cur Hf|cid Ht Hn|cid n Ht Hn He|cid n k rest Ht Hn He Hw IH];
    intros fuel acc Hle; rewrite traverse_eq.
  - destruct cur as [cid|]; rewrite ?Hf, app_nil_r; done.
  - by rewrite Ht, Hn, app_nil_r.
  - by rewrite Ht, Hn, He.
  - destruct fuel as [|fuel]; [lia|].
    rewrite Ht, Hn, He, IH by lia. by rewrite <- app_assoc.
Qed.

Lemma walk_traverse fuel : ∀ cur acc r,
  traverse nodes adj fuel cur acc = Some r →
  ∃ k visited, k ≤ fuel ∧ Walk nodes adj cur k visited ∧ r = acc ++ visited.
Proof.
  induction fuel as [|fuel IH]; intros cur acc r Hr;
    rewrite traverse_eq in Hr;
    (destruct cur as [cid|];
     [destruct (truthy (Some cid)) eqn:Ht;
      [destruct (find (hasId cid) nodes) as [n|] eqn:Hn;
       [destruct (hasType "End" n) eqn:He|]|]|]);
    try discriminate Hr;
    try (injection Hr as <-; exists 0;
         first [ exists [n]; split; [lia|]; split; [by apply walk_end|done]
               | exists []; rewrite app_nil_r; split; [lia|]; split;
                 [ first [by apply walk_missing | by apply walk_falsy] |done]]).
  apply IH in Hr as (k & visited & Hk & Hw & ->).
  exists (S k), (n :: visited). split; [lia|].
  split; [by apply walk_hop|by rewrite <- app_assoc].
Qed.

(** More fuel never changes a result. *)
Lemma traverse_fuel_mono fuel fuel' cur acc r :
  traverse nodes adj fuel cur acc = Some r → fuel ≤ fuel' →
  traverse nodes adj fuel' cur acc = Some r.
Proof.
  intros Hr Hle.
  apply walk_traverse in Hr as (k & visited & Hk & Hw & ->).
  apply traverse_walk with (k := k); [done|lia].
Qed.

Lemma Walk_hops_le cur k visited :
  Walk nodes adj cur k visited → k ≤ length visited.
Proof. induction 1; simpl; lia. Qed.

Lemma Walk_visits_nodes cur k visited :
  Walk nodes adj cur k visited → ∀ n, In n visited → In n nodes.
Proof.
  induction 1 as [| |cid n Ht Hn He|cid n k rest Ht Hn He Hw IH];
    intros m Hm; simpl in Hm; try done.
  - destruct Hm as [<-|[]]. by apply find_some in Hn as [? _].
  - destruct Hm as [<-|Hm]; [|by apply IH].
    by apply find_some in Hn as [? _].
Qed.

Lemma Walk_deterministic cur k visited :
  Walk nodes adj cur k visited →
  ∀ k' visited', Walk nodes adj cur k' visited' →
    k = k' ∧ visited = visited'.
Proof.
  induction 1 as [cur Hf|cid Ht Hn|cid n Ht Hn He|cid n k rest Ht Hn He Hw IH];
    intros k' visited' Hw'; inversion Hw'; subst; try done; try congruence;
    try (split; congruence).
  match goal with
  | H : find _ _ = Some ?m, W : Walk _ _ (_ !! _) ?j ?v |- _ =>
      assert (m = n) as -> by congruence;
      destruct (IH _ _ W) as [-> ->]
  end.
  done.
Qed.
End Traverse.

(** ** The adjacency map *)

Lemma adjacencyMap_snoc edges e :
  adjacencyMap (edges ++ [e]) = <[source e := target e]> (adjacencyMap edges).
Proof. unfold adjacencyMap. by rewrite fold_left_app. Qed.

Lemma outgoing_snoc s edges e :
  outgoing s (edges ++ [e]) =
  outgoing s edges ++ (if String.eqb (source e) s then [e] else []).
Proof. unfold outgoing. by rewrite List.filter_app. Qed.

Lemma adjacencyMap_lookup edges s :
  adjacencyMap edges !! s = target <$> last (outgoing s edges).
Proof.
  induction edges as [|e edges IH] using rev_ind; [done|].
  rewrite adjacencyMap_snoc, outgoing_snoc.
  destruct (String.eqb (source e) s) eqn:Hs.
  - apply String.eqb_eq in Hs as <-.
    by rewrite lookup_insert_eq, last_snoc.
  - apply String.eqb_neq in Hs.
    by rewrite lookup_insert_ne, app_nil_r.
Qed.

Lemma outgoing_In s edges e : In e (outgoing s edges) ↔ In e edges ∧ source e = s.
Proof. unfold outgoing. rewrite List.filter_In, String.eqb_eq. done. Qed.

Lemma adjacencyMap_unique edges s t :
  uniqueOutgoing edges s t → adjacencyMap edges !! s = Some t.
Proof.
  intros [(e & He & Hs & Ht) Hall]. rewrite adjacencyMap_lookup.
  destruct (last (outgoing s edges)) as [e'|] eqn:Hl.
  - apply last_Some_elem_of, list_elem_of_In, outgoing_In in Hl as [? ?].
    simpl. f_equal. by apply Hall.
  - apply last_None in Hl.
    assert (In e (outgoing s edges)) as Hin by by apply outgoing_In.
    rewrite Hl in Hin. destruct Hin.
Qed.

(** ** Looking nodes up *)

Lemma find_hasId_NoDup nodes n :
  NoDup (map id nodes) → In n nodes → find (hasId (id n)) nodes = Some n.
Proof.
  induction nodes as [|m nodes IH]; intros Hnd Hin; [destruct Hin|].
  simpl in Hnd. apply NoDup_cons in Hnd as [Hm Hnd]. simpl.
  destruct (hasId (id n) m) eqn:Hid.
  - apply hasId_true in Hid. destruct Hin as [->|Hin]; [done|].
    exfalso. apply Hm. rewrite Hid. apply list_elem_of_In, in_map, Hin.
  - destruct Hin as [->|Hin]; [|by apply IH].
    apply not_true_iff_false in Hid. exfalso. apply Hid. by apply hasId_true.
Qed.

Lemma find_hasType_None t nodes :
  noNodeOfType t nodes → find (hasType t) nodes = None.
Proof.
  intros Hno. destruct (find (hasType t) nodes) as [n|] eqn:Hf; [|done].
  apply find_some in Hf as [Hin Ht]. apply hasType_true in Ht.
  by destruct (Hno n Hin).
Qed.

Lemma reachesEnd_Walk nodes edges a k path :
  wellFormedIds nodes → In a nodes →
  reachesEnd nodes edges a k path →
  Walk nodes (adjacencyMap edges) (Some (id a)) k path.
Proof.
  intros [Hnd Hne] Ha Hr. induction Hr as [e He|a b k path Ha' Hout Hb Hr IH].
  - apply walk_end; [|by apply find_hasId_NoDup|done].
    apply truthy_Some. by apply (proj1 (Forall_forall _ _) Hne), list_elem_of_In.
  - apply walk_hop; [|by apply find_hasId_NoDup|done|].
    + apply truthy_Some.
      by apply (proj1 (Forall_forall _ _) Hne), list_elem_of_In.
    + rewrite (adjacencyMap_unique _ _ _ Hout). by apply IH.
Qed.

Lemma reachesEnd_length nodes edges a k path :
  reachesEnd nodes edges a k path → length path = S k.
Proof. induction 1; simpl; congruence. Qed.

Lemma reachesEnd_last nodes edges a k path :
  reachesEnd nodes edges a k path →
  ∃ e, last path = Some e ∧ hasType "End" e = true.
Proof.
  induction 1 as [e He|a b k path Ha Hout Hb Hr (e & Hl & He)].
  - by exists e.
  - exists e. split; [|done]. destruct path; [done|]. by rewrite last_cons, Hl.
Qed.

(** ** The resolver *)

Lemma In_find_Some (f : Node → bool) nodes n :
  In n nodes → f n = true → ∃ m, find f nodes = Some m.
Proof.
  intros Hin Hf. destruct (find f nodes) as [m|] eqn:Hm; [by exists m|].
  by rewrite (find_none _ _ Hm n Hin) in Hf.
Qed.

Lemma getExecutionOrder_Walk nodes edges startNode endNode k visited fuel :
  find (hasType "Start") nodes = Some startNode →
  find (hasType "End") nodes = Some endNode →
  Walk nodes (adjacencyMap edges) (Some (id startNode)) k visited →
  k ≤ fuel →
  getExecutionOrder fuel nodes edges =
  Some (match last visited with
        | Some lastNode => if hasType "End" lastNode then Some visited else None
        | None => None
        end).
Proof.
  intros Hs He Hw Hk. unfold getExecutionOrder. rewrite Hs, He.
  rewrite (traverse_walk _ _ _ _ _ Hw fuel [] Hk). simpl.
  destruct (last visited) as [lastNode|]; [|done].
  by destruct (hasType "End" lastNode).
Qed.

Lemma getExecutionOrder_fuel_mono nodes edges fuel fuel' r :
  getExecutionOrder fuel nodes edges = Some r → fuel ≤ fuel' →
  getExecutionOrder fuel' nodes edges = Some r.
Proof.
  unfold getExecutionOrder. intros Hr Hle.
  destruct (find (hasType "Start") nodes) as [startNode|]; [|done].
  destruct (find (hasType "End") nodes) as [endNode|]; [|done].
  destruct (traverse nodes (adjacencyMap edges) fuel (Some (id startNode)) [])
    as [order|] eqn:Ht; [|done].
  by rewrite (traverse_fuel_mono _ _ _ _ _ _ _ Ht Hle).
Qed.

(** A walk that stops never passes twice through a node. *)
Lemma Walk_from_visited nodes adj cur k visited :
  Walk nodes adj cur k visited →
  ∀ m, In m visited →
    ∃ k' post, k' ≤ k ∧ Walk nodes adj (Some (id m)) k' (m :: post).
Proof.
  induction 1 as [| |cid n Ht Hn He|cid n k rest Ht Hn He Hw IH];
    intros m Hm; simpl in Hm; try done.
  - destruct Hm as [<-|[]]. exists 0, []. split; [done|].
    pose proof (find_some _ _ Hn) as [_ Hid]. apply hasId_true in Hid.
    rewrite Hid. by apply walk_end.
  - destruct Hm as [<-|Hm].
    + exists (S k), rest. split; [done|].
      pose proof (find_some _ _ Hn) as [_ Hid]. apply hasId_true in Hid.
      rewrite Hid. by apply walk_hop.
    + destruct (IH m Hm) as (k' & post & Hk' & Hw').
      exists k', post. split; [lia|done].
Qed.

Lemma Walk_NoDup nodes adj cur k visited :
  Walk nodes adj cur k visited → List.NoDup visited.
Proof.
  induction 1 as [| |cid n Ht Hn He|cid n k rest Ht Hn He Hw IH];
    try apply List.NoDup_nil.
  - apply List.NoDup_cons; [by intros []|apply List.NoDup_nil].
  - apply List.NoDup_cons; [|done].
    intros Hin.
    destruct (Walk_from_visited _ _ _ _ _ Hw n Hin) as (k' & post & Hk' & Hw').
    pose proof (find_some _ _ Hn) as [_ Hid]. apply hasId_true in Hid.
    rewrite Hid in Hw'.
    assert (Walk nodes adj (Some cid) (S k) (n :: rest)) as Hfull
      by by apply walk_hop.
    destruct (Walk_deterministic _ _ _ _ _ Hfull _ _ Hw') as [Heq _]. lia.
Qed.

Lemma Walk_bounded nodes adj cur k visited :
  Walk nodes adj cur k visited →
  k ≤ length visited ∧ length visited ≤ length nodes.
Proof.
  intros Hw. split; [by eapply Walk_hops_le|].
  apply List.NoDup_incl_length; [by eapply Walk_NoDup|].
  intros n. by eapply Walk_visits_nodes.
Qed.

(** Fuel [|nodes|] decides the walk: if it is not enough, nothing is. *)
Lemma traverse_complete nodes adj fuel cur r :
  traverse nodes adj fuel cur [] = Some r →
  traverse nodes adj (length nodes) cur [] = Some r.
Proof.
  intros Hr. apply walk_traverse in Hr as (k & visited & Hk & Hw & ->).
  apply traverse_walk with (k := k); [done|].
  destruct (Walk_bounded _ _ _ _ _ Hw). lia.
Qed.

Lemma getExecutionOrder_complete nodes edges fuel r :
  getExecutionOrder fuel nodes edges = Some r →
  getExecutionOrder (length nodes) nodes edges = Some r.
Proof.
  unfold getExecutionOrder. intros Hr.
  destruct (find (hasType "Start") nodes) as [startNode|]; [|done].
  destruct (find (hasType "End") nodes) as [endNode|]; [|done].
  destruct (traverse nodes (adjacencyMap edges) fuel (Some (id startNode)) [])
    as [order|] eqn:Ht; [|done].
  by rewrite (traverse_complete _ _ _ _ _ Ht).
Qed.

(** The cases in which the resolver answers [null] are the three ways of
    not being executable. *)
Lemma not_executable_cases nodes edges fuel :
  getExecutionOrder fuel nodes edges = Some None →
  noNodeOfType "Start" nodes ∨ noNodeOfType "End" nodes ∨ deadEnds nodes edges.
Proof.
  unfold getExecutionOrder. intros Hr.
  destruct (find (hasType "Start") nodes) as [startNode|] eqn:Hs.
  - destruct (find (hasType "End") nodes) as [endNode|] eqn:He.
    + right. right.
      destruct (traverse nodes (adjacencyMap edges) fuel (Some (id startNode)) [])
        as [order|] eqn:Ht; [|done].
      apply walk_traverse in Ht as (k & visited & Hk & Hw & ->).
      exists startNode, k, visited. split; [done|]. split; [done|].
      simpl in Hr. intros n Hn. rewrite Hn in Hr.
      by destruct (hasType "End" n).
    + right. left. intros n Hin. apply hasType_false.
      apply (find_none _ _ He n Hin).
  - left. intros n Hin. apply hasType_false. apply (find_none _ _ Hs n Hin).
Qed.

Lemma not_executable_resolve nodes edges :
  noNodeOfType "Start" nodes ∨ noNodeOfType "End" nodes ∨ deadEnds nodes edges →
  ∃ fuel0, ∀ fuel, fuel0 ≤ fuel → getExecutionOrder fuel nodes edges = Some None.
Proof.
  intros [Hs|[He|(startNode & k & visited & Hs & Hw & Hl)]].
  - exists 0. intros fuel _. unfold getExecutionOrder.
    by rewrite (find_hasType_None _ _ Hs).
  - exists 0. intros fuel _. unfold getExecutionOrder.
    rewrite (find_hasType_None _ _ He).
    by destruct (find (hasType "Start") nodes).
  - exists k. intros fuel Hk.
    destruct (find (hasType "End") nodes) as [endNode|] eqn:He.
    + rewrite (getExecutionOrder_Walk _ _ _ _ _ _ _ Hs He Hw Hk).
      destruct (last visited) as [n|]; [|done]. by rewrite (Hl n eq_refl).
    + unfold getExecutionOrder. by rewrite Hs, He.
Qed.

Lemma runFlow_not_executable remote fuel nodes edges log0 :
  getExecutionOrder fuel nodes edges = Some None →
  runFlow remote fuel nodes edges log0 =
  Some ({| logMessages := [validationError]; requests := [] |}, ValidationFailed).
Proof. intros Hr. unfold runFlow. by rewrite Hr. Qed.

Lemma validationError_not_flowStarted n : validationError ≠ flowStarted n.
Proof. unfold validationError, flowStarted. intros [=]. Qed.

(** ** Claims about the resolver *)

(** C1 (as the code has it).  A graph without a node of type Start, or
    without a node of type End, is not executable: the resolver answers
    [null] whatever the edges are, and the run leaves exactly one entry in
    the log, the diagnostic of the system, without sending a request. *)
Theorem missing_start_or_end_not_executable nodes edges :
  noNodeOfType "Start" nodes ∨ noNodeOfType "End" nodes →
  ∀ fuel,
    getExecutionOrder fuel nodes edges = Some None ∧
    ∀ remote log0,
      runFlow remote fuel nodes edges log0 =
      Some ({| logMessages := [validationError]; requests := [] |},
            ValidationFailed).
Proof.
  intros Hmissing fuel.
  assert (getExecutionOrder fuel nodes edges = Some None) as Hr.
  { unfold getExecutionOrder. destruct Hmissing as [Hs|He].
    - by rewrite (find_hasType_None _ _ Hs).
    - rewrite (find_hasType_None _ _ He).
      by destruct (find (hasType "Start") nodes). }
  split; [done|]. intros remote log0. by apply runFlow_not_executable.
Qed.

Lemma missing_start_or_end_witness :
  getExecutionOrder 0 [sampleNode "node_0" "End"] [] = Some None ∧
  ∀ remote log0,
    runFlow remote 0 [sampleNode "node_0" "End"] [] log0 =
    Some ({| logMessages := [validationError]; requests := [] |},
          ValidationFailed).
Proof.
  apply (missing_start_or_end_not_executable [sampleNode "node_0" "End"] []).
  left. intros n [<-|[]]. vm_compute. discriminate.
Defined.

(** C1 fails for a graph with two Start nodes, the first of them wired
    to End: the resolver returns a sequence, and the run starts. *)
Lemma two_start_nodes_resolve :
  length (List.filter (hasType "Start") twoStartNodes) = 2 ∧
  getExecutionOrder 1 twoStartNodes twoStartEdges =
    Some (Some [sampleNode "node_0" "Start"; sampleNode "node_2" "End"]) ∧
  getExecutionOrder 1 twoStartNodes twoStartEdges ≠ Some None ∧
  ∃ st, runFlow answering 1 twoStartNodes twoStartEdges [] = Some (st, Completed)
        ∧ length (logMessages st) = 3.
Proof.
  split; [reflexivity|]. split; [reflexivity|]. split; [by vm_compute|].
  eexists. split; [vm_compute; reflexivity|reflexivity].
Qed.

(** C3 (as the code has it).  In a graph whose node ids are unique and
    not empty, let [startNode] be the
    Start node the resolver locates.  If following the unique outgoing
    edges from it reaches a node of type End after [k] hops, along [path],
    then the resolver, given fuel for [k] hops, returns exactly [path]: its
    [k + 1] nodes in the order of the walk.  Nodes off the path, however
    many the graph has, are not in the result. *)
Theorem resolve_returns_path nodes edges startNode k path fuel :
  wellFormedIds nodes →
  find (hasType "Start") nodes = Some startNode →
  reachesEnd nodes edges startNode k path →
  k ≤ fuel →
  getExecutionOrder fuel nodes edges = Some (Some path) ∧
  length path = S k ∧
  ∀ order n, getExecutionOrder fuel nodes edges = Some (Some order) →
             ¬ In n path → ¬ In n order.
Proof.
  intros Hwf Hs Hreach Hk.
  pose proof (find_some _ _ Hs) as [Hin _].
  pose proof (reachesEnd_Walk _ _ _ _ _ Hwf Hin Hreach) as Hw.
  destruct (reachesEnd_last _ _ _ _ _ Hreach) as (e & Hl & He).
  assert (In e nodes) as Hine.
  { apply (Walk_visits_nodes _ _ _ _ _ Hw).
    by apply list_elem_of_In, last_Some_elem_of. }
  destruct (In_find_Some _ _ _ Hine He) as [endNode Hend].
  assert (getExecutionOrder fuel nodes edges = Some (Some path)) as Hr.
  { rewrite (getExecutionOrder_Walk _ _ _ _ _ _ _ Hs Hend Hw Hk).
    by rewrite Hl, He. }
  split; [done|]. split; [by eapply reachesEnd_length|].
  intros order n Ho. rewrite Hr in Ho. by injection Ho as <-.
Qed.

Lemma chain_wellFormedIds : wellFormedIds chainNodes.
Proof.
  split.
  - apply (bool_decide_unpack _). by vm_compute.
  - repeat constructor; discriminate.
Defined.

Lemma sampleEdge_uniqueOutgoing edges s t :
  In (sampleEdge s t) edges →
  (∀ e, In e edges → source e = s → target e = t) →
  uniqueOutgoing edges s t.
Proof. intros Hin Hall. split; [by exists (sampleEdge s t)|done]. Defined.

Lemma chain_reachesEnd :
  reachesEnd chainNodes chainEdges (sampleNode "node_0" "Start") 2 chainOrder.
Proof.
  apply reach_hop with (b := sampleNode "node_1" "LLM"); [reflexivity| | |].
  - apply sampleEdge_uniqueOutgoing; [by left|].
    intros e [<-|[<-|[<-|[]]]]; simpl; intros; congruence.
  - right. by left.
  - apply reach_hop with (b := sampleNode "node_2" "End"); [reflexivity| | |].
    + apply sampleEdge_uniqueOutgoing; [right; by left|].
      intros e [<-|[<-|[<-|[]]]]; simpl; intros; congruence.
    + right. right. by left.
    + by apply reach_here.
Defined.

Lemma resolve_returns_path_witness :
  getExecutionOrder 2 chainNodes chainEdges = Some (Some chainOrder) ∧
  length chainOrder = 3 ∧
  ∀ order n, getExecutionOrder 2 chainNodes chainEdges = Some (Some order) →
             ¬ In n chainOrder → ¬ In n order.
Proof.
  apply (resolve_returns_path chainNodes chainEdges
           (sampleNode "node_0" "Start") 2 chainOrder 2).
  - exact chain_wellFormedIds.
  - reflexivity.
  - exact chain_reachesEnd.
  - lia.
Defined.

(** C3 fails when the ids are not well formed, as in a workflow file
    that [importWorkflow] loads unchecked.  With the empty id on the Start
    node, the unique outgoing edge of Start leads to End in one hop, yet
    the loop does not run once and the resolver answers [null].  With an
    id shared by an Input node and the End node behind it, the edge of
    Start leads to that End node in one hop, yet the resolver finds the
    Input node under the id and answers [null]. *)
Lemma ill_formed_ids_not_resolved :
  (find (hasType "Start") emptyIdNodes = Some (sampleNode EmptyString "Start") ∧
   reachesEnd emptyIdNodes emptyIdEdges (sampleNode EmptyString "Start") 1
              [sampleNode EmptyString "Start"; sampleNode "node_1" "End"] ∧
   ∀ fuel, getExecutionOrder fuel emptyIdNodes emptyIdEdges = Some None) ∧
  (find (hasType "Start") sharedIdNodes = Some (sampleNode "node_0" "Start") ∧
   reachesEnd sharedIdNodes sharedIdEdges (sampleNode "node_0" "Start") 1
              [sampleNode "node_0" "Start"; sampleNode "node_1" "End"] ∧
   ∀ fuel, 2 ≤ fuel →
           getExecutionOrder fuel sharedIdNodes sharedIdEdges = Some None).
Proof.
  split; (split; [reflexivity|]); split.
  - apply reach_hop with (b := sampleNode "node_1" "End"); [reflexivity| | |].
    + apply sampleEdge_uniqueOutgoing; [by left|].
      intros e [<-|[]]; simpl; intros; congruence.
    + right. by left.
    + by apply reach_here.
  - intros fuel. unfold getExecutionOrder.
    change (find (hasType "Start") emptyIdNodes)
      with (Some (sampleNode EmptyString "Start")).
    change (find (hasType "End") emptyIdNodes)
      with (Some (sampleNode "node_1" "End")).
    cbv beta iota. by rewrite traverse_eq.
  - apply reach_hop with (b := sampleNode "node_1" "End"); [reflexivity| | |].
    + apply sampleEdge_uniqueOutgoing; [by left|].
      intros e [<-|[]]; simpl; intros; congruence.
    + right. right. by left.
    + by apply reach_here.
  - intros fuel Hfuel. destruct fuel as [|[|fuel]]; [lia|lia|].
    unfold getExecutionOrder.
    change (find (hasType "Start") sharedIdNodes)
      with (Some (sampleNode "node_0" "Start")).
    change (find (hasType "End") sharedIdNodes)
      with (Some (sampleNode "node_1" "End")).
    cbv beta iota. rewrite traverse_eq.
    change (truthy (Some (id (sampleNode "node_0" "Start")))) with true.
    change (find (hasId (id (sampleNode "node_0" "Start"))) sharedIdNodes)
      with (Some (sampleNode "node_0" "Start")).
    change (hasType "End" (sampleNode "node_0" "Start")) with false.
    cbv beta iota.
    change (adjacencyMap sharedIdEdges !! id (sampleNode "node_0" "Start"))
      with (Some "node_1").
    rewrite traverse_eq.
    change (truthy (Some "node_1")) with true.
    change (find (hasId "node_1") sharedIdNodes)
      with (Some (sampleNode "node_1" "Input")).
    change (hasType "End" (sampleNode "node_1" "Input")) with false.
    cbv beta iota.
    change (adjacencyMap sharedIdEdges !! "node_1") with (@None string).
    by rewrite traverse_eq.
Qed.

(** C5 (as the code has it).  Let a graph have no Start node, no End
    node, or a walk from the Start node that stops at a node that is not
    of type End.  Then the run, once the resolver has the fuel to return,
    ends at the validation [return]: the log holds exactly one entry, the
    diagnostic attributed to the system, no request has been sent, and
    the entry announcing the start of the flow is not written. *)
Theorem validation_failure_single_diagnostic nodes edges :
  noNodeOfType "Start" nodes ∨ noNodeOfType "End" nodes ∨ deadEnds nodes edges →
  ∃ fuel0, ∀ fuel remote log0, fuel0 ≤ fuel →
    ∃ st,
      runFlow remote fuel nodes edges log0 = Some (st, ValidationFailed) ∧
      logMessages st = [validationError] ∧
      nodeId validationError = "system" ∧
      requests st = [] ∧
      ∀ n, ¬ In (flowStarted n) (logMessages st).
Proof.
  intros Hinvalid.
  destruct (not_executable_resolve _ _ Hinvalid) as [fuel0 Hfuel0].
  exists fuel0. intros fuel remote log0 Hle.
  eexists. split; [apply runFlow_not_executable; by apply Hfuel0|].
  simpl. repeat split.
  intros n [Heq|[]]. by apply (validationError_not_flowStarted n).
Qed.

Lemma deadEnd_deadEnds : deadEnds deadEndNodes deadEndEdges.
Proof.
  exists (sampleNode "node_0" "Start"), 2,
         [sampleNode "node_0" "Start"; sampleNode "node_1" "Input"].
  split; [reflexivity|]. split.
  - apply walk_hop; [reflexivity|reflexivity|reflexivity|].
    change (adjacencyMap deadEndEdges !! id (sampleNode "node_0" "Start"))
      with (Some "node_1").
    apply walk_hop; [reflexivity|reflexivity|reflexivity|].
    change (adjacencyMap deadEndEdges !! "node_1") with (@None string).
    by apply walk_falsy.
  - intros n [= <-]. reflexivity.
Defined.

Lemma validation_failure_witness :
  ∃ fuel0, ∀ fuel remote log0, fuel0 ≤ fuel →
    ∃ st,
      runFlow remote fuel deadEndNodes deadEndEdges log0
        = Some (st, ValidationFailed) ∧
      logMessages st = [validationError] ∧
      nodeId validationError = "system" ∧
      requests st = [] ∧
      ∀ n, ¬ In (flowStarted n) (logMessages st).
Proof.
  apply (validation_failure_single_diagnostic deadEndNodes deadEndEdges).
  right. right. exact deadEnd_deadEnds.
Defined.

(** C5 fails on a graph whose walk from Start runs in a cycle: no path
    leads from Start to End, and the resolver never returns, so that the
    run never writes the diagnostic. *)
Lemma cycle_never_reports :
  (¬ ∃ k path,
       reachesEnd cycleNodes cycleEdges (sampleNode "node_0" "Start") k path) ∧
  (∀ fuel, getExecutionOrder fuel cycleNodes cycleEdges = None) ∧
  ∀ fuel remote log0, runFlow remote fuel cycleNodes cycleEdges log0 = None.
Proof.
  assert (∀ fuel, getExecutionOrder fuel cycleNodes cycleEdges = None) as Hnone.
  { intros fuel.
    destruct (getExecutionOrder fuel cycleNodes cycleEdges) as [r|] eqn:Hr;
      [|done].
    apply getExecutionOrder_complete in Hr. by vm_compute in Hr. }
  split; [|split; [done|]].
  - intros (k & path & Hreach).
    assert (wellFormedIds cycleNodes) as Hwf.
    { split; [apply (bool_decide_unpack _); by vm_compute|].
      repeat constructor; discriminate. }
    assert (find (hasType "Start") cycleNodes
            = Some (sampleNode "node_0" "Start")) as Hs by reflexivity.
    pose proof (find_some _ _ Hs) as [Hin _].
    pose proof (reachesEnd_Walk _ _ _ _ _ Hwf Hin Hreach) as Hw.
    pose proof (getExecutionOrder_Walk cycleNodes cycleEdges _
                  (sampleNode "node_2" "End") _ _ k Hs eq_refl Hw (le_n k)) as Hr.
    by rewrite Hnone in Hr.
  - intros fuel remote log0. unfold runFlow. by rewrite Hnone.
Qed.

(** C6.  Let the walk from the Start node stop, at End or at a dead end,
    after [k] hops without passing twice through a node.  Then it visits at
    most [|nodes|] nodes and takes at most [|nodes|] hops, so that the
    resolver terminates within [|nodes|] hops and returns a result. *)
Theorem resolve_terminates_within_nodes nodes edges startNode k visited :
  find (hasType "Start") nodes = Some startNode →
  Walk nodes (adjacencyMap edges) (Some (id startNode)) k visited →
  List.NoDup visited →
  length visited ≤ length nodes ∧
  k ≤ length nodes ∧
  traverse nodes (adjacencyMap edges) (length nodes) (Some (id startNode)) []
    = Some visited ∧
  ∃ r, getExecutionOrder (length nodes) nodes edges = Some r.
Proof.
  intros Hs Hw Hnd.
  assert (length visited ≤ length nodes) as Hlen.
  { apply List.NoDup_incl_length; [done|].
    intros n. by eapply Walk_visits_nodes. }
  pose proof (Walk_hops_le _ _ _ _ _ Hw) as Hk.
  assert (k ≤ length nodes) as Hfuel by lia.
  split; [done|]. split; [done|].
  split; [by apply (traverse_walk _ _ _ _ _ Hw)|].
  unfold getExecutionOrder. rewrite Hs.
  destruct (find (hasType "End") nodes) as [endNode|]; [|by eexists].
  rewrite (traverse_walk _ _ _ _ _ Hw _ [] Hfuel). simpl.
  destruct (last visited) as [lastNode|]; [|by eexists].
  destruct (hasType "End" lastNode); by eexists.
Qed.

Lemma resolve_terminates_witness :
  length [sampleNode "node_0" "Start"; sampleNode "node_1" "Input"]
    ≤ length deadEndNodes ∧
  2 ≤ length deadEndNodes ∧
  traverse deadEndNodes (adjacencyMap deadEndEdges) (length deadEndNodes)
           (Some (id (sampleNode "node_0" "Start"))) []
    = Some [sampleNode "node_0" "Start"; sampleNode "node_1" "Input"] ∧
  ∃ r, getExecutionOrder (length deadEndNodes) deadEndNodes deadEndEdges = Some r.
Proof.
  apply (resolve_terminates_within_nodes deadEndNodes deadEndEdges
           (sampleNode "node_0" "Start") 2).
  - reflexivity.
  - apply walk_hop; [reflexivity|reflexivity|reflexivity|].
    change (adjacencyMap deadEndEdges !! id (sampleNode "node_0" "Start"))
      with (Some "node_1").
    apply walk_hop; [reflexivity|reflexivity|reflexivity|].
    change (adjacencyMap deadEndEdges !! "node_1") with (@None string).
    by apply walk_falsy.
  - repeat (apply List.NoDup_cons; [simpl; intuition discriminate|]).
    apply List.NoDup_nil.
Defined.

(** C8.  The resolver is a function of the nodes and the edges alone: it
    reads them and writes nothing.  Two calls on the same collections that
    return, return the same answer, the same sequence or [null] twice; and
    with fuel for [|nodes|] hops any two calls behave alike, in returning
    and in what they return. *)
Theorem resolve_twice_identical nodes edges fuel1 fuel2 :
  (∀ r1 r2,
     getExecutionOrder fuel1 nodes edges = Some r1 →
     getExecutionOrder fuel2 nodes edges = Some r2 →
     r1 = r2) ∧
  (length nodes ≤ fuel1 → length nodes ≤ fuel2 →
   getExecutionOrder fuel1 nodes edges = getExecutionOrder fuel2 nodes edges).
Proof.
  split.
  - intros r1 r2 H1 H2. destruct (Nat.le_ge_cases fuel1 fuel2) as [Hle|Hle].
    + rewrite (getExecutionOrder_fuel_mono _ _ _ _ _ H1 Hle) in H2. congruence.
    + rewrite (getExecutionOrder_fuel_mono _ _ _ _ _ H2 Hle) in H1. congruence.
  - intros Hle1 Hle2.
    destruct (getExecutionOrder fuel1 nodes edges) as [r1|] eqn:H1.
    + apply getExecutionOrder_complete in H1.
      symmetry. by apply (getExecutionOrder_fuel_mono _ _ _ _ _ H1).
    + destruct (getExecutionOrder fuel2 nodes edges) as [r2|] eqn:H2; [|done].
      apply getExecutionOrder_complete in H2.
      by rewrite (getExecutionOrder_fuel_mono _ _ _ _ _ H2 Hle1) in H1.
Qed.

Lemma resolve_twice_witness :
  getExecutionOrder 2 chainNodes chainEdges = Some (Some chainOrder) ∧
  getExecutionOrder 7 chainNodes chainEdges = Some (Some chainOrder) ∧
  Some chainOrder = Some chainOrder ∧
  getExecutionOrder 5 chainNodes chainEdges
    = getExecutionOrder 9 chainNodes chainEdges.
Proof.
  split; [reflexivity|]. split; [reflexivity|]. split.
  - apply (proj1 (resolve_twice_identical chainNodes chainEdges 2 7));
      reflexivity.
  - apply (proj2 (resolve_twice_identical chainNodes chainEdges 5 9));
      simpl; lia.
Defined.

(** On a graph with two edges leaving the Start node, the resolver goes
    along the second. *)
Example fork_takes_last_edge :
  last (outgoing "node_0" forkEdges) = Some (sampleEdge "node_0" "node_2") ∧
  getExecutionOrder 1 forkNodes forkEdges =
  Some (Some [sampleNode "node_0" "Start"; sampleNode "node_2" "End"]).
Proof. split; reflexivity. Qed.

(** ** The run controller *)

Lemma expectedEntries_nodeId remote nodes : ∀ history,
  map nodeId (expectedEntries remote history nodes)
  = map id (List.filter logged nodes).
Proof.
  induction nodes as [|n nodes IH]; intros history; [done|].
  simpl. unfold logged. destruct (dispatch n); simpl; by rewrite ?IH.
Qed.

Lemma expectedEntries_length remote history nodes :
  length (expectedEntries remote history nodes)
  = length (List.filter logged nodes).
Proof.
  rewrite <- (length_map nodeId), expectedEntries_nodeId. apply length_map.
Qed.

Lemma filter_logged_all nodes :
  forallb logged nodes = true → List.filter logged nodes = nodes.
Proof.
  induction nodes as [|n nodes IH]; [done|]. simpl.
  intros [Hn Hall]%andb_true_iff. by rewrite Hn, IH.
Qed.

Lemma omap_requestOf_cons n nodes :
  omap requestOf (n :: nodes) =
  match dispatch n with
  | Call req _ => [req]
  | _ => []
  end ++ omap requestOf nodes.
Proof. unfold requestOf. simpl. by destruct (dispatch n). Qed.

Lemma executeNodes_log remote order : ∀ pos st st' oc,
  executeNodes remote order pos st = (st', oc) →
  logMessages st' =
    logMessages st ++ expectedEntries remote (requests st) (reached pos order oc) ∧
  requests st' = requests st ++ omap requestOf (reached pos order oc) ∧
  match oc with
  | ValidationFailed => False
  | Completed => True
  | StoppedAt i =>
      pos ≤ i < pos + length order ∧
      ∃ n errorMsg, order !! (i - pos) = Some n ∧ is_Some (requestOf n) ∧
                    last (logMessages st') = Some (nodeEntry n errorMsg)
  end.
Proof.
  induction order as [|n rest IH]; intros pos st st' oc Hrun; simpl in Hrun.
  - injection Hrun as <- <-. simpl. by rewrite !app_nil_r.
  - assert (∀ i, S pos ≤ i → S (i - pos) = S (S (i - S pos))) as Hidx by lia.
    destruct (dispatch n) as [out|req result|] eqn:Hd.
    + apply IH in Hrun as (Hlog & Hreq & Hoc). simpl in Hlog, Hreq.
      destruct oc as [|i|]; [done| |].
      * destruct Hoc as (Hi & m & msg & Hm & Hsvc & Hlast).
        unfold reached in *. rewrite (Hidx i) by lia. cbn [take].
        cbn [expectedEntries]. rewrite omap_requestOf_cons, Hd.
        split; [by rewrite Hlog, <- app_assoc|]. split; [done|].
        split; [simpl; lia|]. exists m, msg.
        replace (i - pos) with (S (i - S pos)) by lia. done.
      * unfold reached in *. cbn [expectedEntries].
        rewrite omap_requestOf_cons, Hd.
        split; [by rewrite Hlog, <- app_assoc|done].
    + destruct (result (remote (requests st) req)) as [out|errorMsg] eqn:Hres.
      * apply IH in Hrun as (Hlog & Hreq & Hoc). simpl in Hlog, Hreq.
        destruct oc as [|i|]; [done| |].
        -- destruct Hoc as (Hi & m & msg & Hm & Hsvc & Hlast).
           unfold reached in *. rewrite (Hidx i) by lia. cbn [take].
           cbn [expectedEntries]. rewrite omap_requestOf_cons.
           rewrite Hd, Hres. cbn [resultText].
           split; [by rewrite Hlog, <- app_assoc|].
           split; [by rewrite Hreq, <- app_assoc|].
           split; [simpl; lia|]. exists m, msg.
           replace (i - pos) with (S (i - S pos)) by lia. done.
        -- unfold reached in *. cbn [expectedEntries].
           rewrite omap_requestOf_cons, Hd, Hres. cbn [resultText].
           split; [by rewrite Hlog, <- app_assoc|].
           split; [by rewrite Hreq, <- app_assoc|done].
      * injection Hrun as <- <-. unfold reached.
        rewrite Nat.sub_diag. cbn [take expectedEntries].
        rewrite omap_requestOf_cons, Hd, Hres. cbn [resultText].
        split; [done|]. split; [done|]. split; [simpl; lia|].
        exists n, errorMsg. split; [done|].
        split; [unfold requestOf; rewrite Hd; by eexists|].
        simpl. by rewrite last_snoc.
    + apply IH in Hrun as (Hlog & Hreq & Hoc).
      destruct oc as [|i|]; [done| |].
      * destruct Hoc as (Hi & m & msg & Hm & Hsvc & Hlast).
        unfold reached in *. rewrite (Hidx i) by lia. cbn [take].
        cbn [expectedEntries]. rewrite omap_requestOf_cons, Hd.
        split; [done|]. split; [done|].
        split; [simpl; lia|]. exists m, msg.
        replace (i - pos) with (S (i - S pos)) by lia. done.
      * unfold reached in *. cbn [expectedEntries].
        rewrite omap_requestOf_cons, Hd. done.
Qed.

Lemma reached_executed order oc :
  oc ≠ ValidationFailed → reached 0 order oc = executed order oc.
Proof.
  destruct oc as [|i|]; [done| |done]. intros _. simpl. by rewrite Nat.sub_0_r.
Qed.

Lemma runFlow_running remote fuel nodes edges log0 order :
  getExecutionOrder fuel nodes edges = Some (Some order) →
  ∃ st oc,
    runFlow remote fuel nodes edges log0 = Some (st, oc) ∧
    logMessages st =
      flowStarted (length order) :: expectedEntries remote [] (executed order oc) ∧
    requests st = omap requestOf (executed order oc) ∧
    match oc with
    | ValidationFailed => False
    | Completed => True
    | StoppedAt i =>
        i < length order ∧
        ∃ n errorMsg, order !! i = Some n ∧ is_Some (requestOf n) ∧
                      last (logMessages st) = Some (nodeEntry n errorMsg)
    end.
Proof.
  intros Hr. unfold runFlow. rewrite Hr.
  destruct (executeNodes remote order 0
              (setLogMessages [flowStarted (length order)]
                 (setLogMessages [] {| logMessages := log0; requests := [] |})))
    as [st oc] eqn:Hrun.
  exists st, oc. split; [done|].
  apply executeNodes_log in Hrun as (Hlog & Hreq & Hoc).
  simpl in Hlog, Hreq.
  assert (oc ≠ ValidationFailed) as Hne by (by destruct oc).
  rewrite reached_executed in Hlog, Hreq by done.
  split; [done|]. split; [done|].
  destruct oc as [|i|]; [done| |done].
  destruct Hoc as (Hi & n & msg & Hn & Hsvc & Hlast).
  rewrite Nat.sub_0_r in Hn. split; [lia|]. by exists n, msg.
Qed.

(** The node types that get a log entry, and those that get none. *)
Lemma logged_types n :
  logged n = true ↔
  In (nodeType (data n))
     ["Start"; "End"; "LLM"; "Web Scraping"; "Embedding Generator";
      "Similarity Search"].
Proof.
  unfold logged, dispatch. simpl.
  repeat match goal with
         | |- context [hasType ?t n] =>
             let H := fresh "H" in
             destruct (hasType t n) eqn:H;
             [apply hasType_true in H|apply hasType_false in H]
         end; split; try done; intuition congruence.
Qed.

Lemma pass_through_not_logged n :
  In (nodeType (data n))
     ["Input"; "Tool"; "Memory"; "Output"; "Structured Output"; "Text Note"] →
  logged n = false ∧ requestOf n = None.
Proof.
  intros Hin. unfold logged, requestOf, dispatch, hasType.
  simpl in Hin. destruct Hin as [<-|[<-|[<-|[<-|[<-|[<-|[]]]]]]]; done.
Qed.




Lemma executeNodes_first_failure remote order :
  ∀ i pos st n req result errorMsg,
    order !! i = Some n →
    dispatch n = Call req result →
    result (remote (requests st ++ omap requestOf (take i order)) req)
      = Failure errorMsg →
    (∀ j m reqj resj,
       j < i → order !! j = Some m → dispatch m = Call reqj resj →
       ∃ out, resj (remote (requests st ++ omap requestOf (take j order)) reqj)
              = Success out) →
    ∃ st', executeNodes remote order pos st = (st', StoppedAt (pos + i)) ∧
           last (logMessages st') = Some (nodeEntry n errorMsg).
Proof.
  induction order as [|m rest IH];
    intros i pos st n req result errorMsg Hn Hd Hfail Hbefore; [done|].
  destruct i as [|i]; simpl in Hn.
  - injection Hn as ->. cbn [take omap] in Hfail.
    rewrite app_nil_r in Hfail. cbn [executeNodes]. rewrite Hd, Hfail.
    eexists. split; [by rewrite Nat.add_0_r|]. simpl. by rewrite last_snoc.
  - cbn [executeNodes].
    replace (pos + S i) with (S pos + i) by lia.
    cbn [take] in Hfail. rewrite omap_requestOf_cons in Hfail.
    assert (∀ st0 : RunState,
              requests st0 = requests st ++
                             match dispatch m with
                             | Call reqm _ => [reqm]
                             | _ => []
                             end →
              ∃ st', executeNodes remote rest (S pos) st0
                     = (st', StoppedAt (S pos + i)) ∧
                     last (logMessages st') = Some (nodeEntry n errorMsg))
      as Hrest.
    { intros st0 Hreq. apply (IH i (S pos) st0 n req result errorMsg Hn Hd).
      - by rewrite Hreq, <- app_assoc.
      - intros j k reqj resj Hj Hk Hdk.
        destruct (Hbefore (S j) k reqj resj) as [out Hout];
          [lia|done|done|].
        exists out. cbn [take] in Hout. rewrite omap_requestOf_cons in Hout.
        by rewrite Hreq, <- app_assoc. }
    destruct (dispatch m) as [out|reqm resm|] eqn:Hdm.
    + apply Hrest. simpl. by rewrite app_nil_r.
    + destruct (Hbefore 0 m reqm resm) as [out Hout]; [lia|done|done|].
      cbn [take omap] in Hout. rewrite app_nil_r in Hout. rewrite Hout.
      by apply Hrest.
    + apply Hrest. by rewrite app_nil_r.
Qed.

(** C4 (as the code has it).  Let the executor of the node at position
    [i] of the resolved sequence fail on the answer it gets, and let no
    executor before it fail, each on the answer to its request after the
    requests of the nodes before.  Then the run stops at position [i].
    The log holds the entry announcing the start and one entry for each
    node at positions [0..i] whose type gets an entry; that makes [i + 2]
    entries when no node of another type comes before position [i].  The
    last entry is the error of the node at position [i], no entry belongs
    to a later node, and the requests sent are those of the nodes at
    positions [0..i]: no later node runs. *)
Theorem stop_on_first_error remote fuel nodes edges log0 order i n req result
    errorMsg :
  getExecutionOrder fuel nodes edges = Some (Some order) →
  order !! i = Some n →
  dispatch n = Call req result →
  result (remote (omap requestOf (take i order)) req) = Failure errorMsg →
  (∀ j m reqj resj,
     j < i → order !! j = Some m → dispatch m = Call reqj resj →
     ∃ out, resj (remote (omap requestOf (take j order)) reqj) = Success out) →
  ∃ st,
    runFlow remote fuel nodes edges log0 = Some (st, StoppedAt i) ∧
    i < length order ∧
    length (logMessages st)
      = 1 + length (List.filter logged (take (S i) order)) ∧
    (forallb logged (take i order) = true → length (logMessages st) = i + 2) ∧
    map nodeId (tail (logMessages st))
      = map id (List.filter logged (take (S i) order)) ∧
    requests st = omap requestOf (take (S i) order) ∧
    last (logMessages st) = Some (nodeEntry n errorMsg).
Proof.
  intros Hr Hn Hd Hfail Hbefore.
  destruct (runFlow_running remote _ _ _ log0 _ Hr)
    as (st & oc & Hrun & Hlog & Hreq & Hoc).
  destruct (executeNodes_first_failure remote order i 0
              (setLogMessages [flowStarted (length order)]
                 (setLogMessages [] {| logMessages := log0; requests := [] |}))
              n req result errorMsg Hn Hd Hfail Hbefore)
    as (st' & Hstop & Hlast).
  unfold runFlow in Hrun. rewrite Hr, Hstop in Hrun.
  injection Hrun as <- <-. simpl in Hlog, Hreq.
  exists st'. split; [unfold runFlow; by rewrite Hr, Hstop|].
  assert (length (logMessages st')
          = 1 + length (List.filter logged (take (S i) order))) as Hlen.
  { rewrite Hlog. simpl. by rewrite expectedEntries_length. }
  split; [by apply lookup_lt_Some in Hn|]. split; [done|]. split.
  - intros Hall. rewrite Hlen, filter_logged_all.
    + rewrite length_take. apply lookup_lt_Some in Hn. lia.
    + rewrite (take_S_r _ _ _ Hn), forallb_app, Hall. simpl.
      unfold logged. by rewrite Hd.
  - split; [rewrite Hlog; simpl; apply expectedEntries_nodeId|]. done.
Qed.

Lemma stop_on_first_error_witness :
  ∃ st,
    runFlow refusingScrape 3 scrapeNodes scrapeEdges []
      = Some (st, StoppedAt 2) ∧
    2 < length scrapeNodes ∧
    length (logMessages st)
      = 1 + length (List.filter logged (take 3 scrapeNodes)) ∧
    (forallb logged (take 2 scrapeNodes) = true →
     length (logMessages st) = 2 + 2) ∧
    map nodeId (tail (logMessages st))
      = map id (List.filter logged (take 3 scrapeNodes)) ∧
    requests st = omap requestOf (take 3 scrapeNodes) ∧
    last (logMessages st)
      = Some (nodeEntry (sampleNode "node_2" "Web Scraping")
                "Error: Failed to extract data").
Proof.
  apply (stop_on_first_error refusingScrape 3 scrapeNodes scrapeEdges []
           scrapeNodes 2 (sampleNode "node_2" "Web Scraping")
           (webScrapeRequest (sampleNode "node_2" "Web Scraping"))
           webScrapeResult "Error: Failed to extract data").
  - reflexivity.
  - reflexivity.
  - reflexivity.
  - reflexivity.
  - intros j m reqj resj Hj Hm Hdm.
    destruct j as [|[|j]]; [| |lia]; injection Hm as <-;
      vm_compute in Hdm; [discriminate Hdm|].
    injection Hdm as <- <-. eexists. reflexivity.
Defined.

(** C4 fails on Start -> Input -> LLM -> End when the LLM call is refused:
    the failing node is at position 2 and the log has 3 entries, not 4. *)
Lemma failure_after_input_node_three_entries :
  ∃ st,
    getExecutionOrder 3 inputNodes inputEdges = Some (Some inputNodes) ∧
    runFlow refusing 3 inputNodes inputEdges [] = Some (st, StoppedAt 2) ∧
    length (logMessages st) = 3 ∧
    length (logMessages st) ≠ 2 + 2.
Proof.
  eexists. split; [reflexivity|]. split; [reflexivity|].
  split; [reflexivity|]. simpl. lia.
Qed.

(** ** The editing surface *)

Lemma outgoing_filter_length s (f : Edge → bool) eds :
  length (outgoing s (List.filter f eds)) ≤ length (outgoing s eds).
Proof.
  unfold outgoing. induction eds as [|e eds IH]; [done|]. simpl.
  destruct (f e); simpl; destruct (String.eqb (source e) s); simpl; lia.
Qed.

Lemma outgoing_removed s eds :
  outgoing s (List.filter (fun e => negb (String.eqb (source e) s)) eds) = [].
Proof.
  unfold outgoing. induction eds as [|e eds IH]; [done|]. simpl.
  destruct (String.eqb (source e) s) eqn:Hs; simpl; [done|]. by rewrite Hs.
Qed.

Lemma distinct_sources_atMostOneOutgoing eds :
  NoDup (map source eds) → atMostOneOutgoing eds.
Proof.
  induction eds as [|e eds IH]; intros Hnd s; [simpl; lia|].
  simpl in Hnd. apply NoDup_cons in Hnd as [He Hnd].
  unfold outgoing. simpl. destruct (String.eqb (source e) s) eqn:Hs.
  - apply String.eqb_eq in Hs as <-.
    assert (outgoing (source e) eds = []) as Hnone.
    { destruct (outgoing (source e) eds) as [|e' rest] eqn:Hout; [done|].
      exfalso. apply He.
      assert (In e' (outgoing (source e) eds)) as Hin by (rewrite Hout; by left).
      apply outgoing_In in Hin as [Hin <-].
      by apply list_elem_of_In, in_map. }
    unfold outgoing in Hnone. rewrite Hnone. simpl. lia.
  - apply (IH Hnd s).
Qed.

Lemma addEdge_contract : addEdgeContract addEdge.
Proof.
  intros params eds. unfold addEdge.
  destruct (negb (truthy (Some (Conn.source params)))
            || negb (truthy (Some (Conn.target params)))); [by left|].
  match goal with |- context [connectionExists ?e eds] =>
    destruct (connectionExists e eds); [by left|right; by exists e] end.
Qed.

Lemma connectionExists_removed edge eds :
  connectionExists edge
    (List.filter (fun e => negb (String.eqb (source e) (source edge))) eds)
  = false.
Proof.
  unfold connectionExists. induction eds as [|e eds IH]; [done|]. simpl.
  destruct (String.eqb (source e) (source edge)) eqn:Hs; simpl; [done|].
  by rewrite Hs.
Qed.

Lemma outgoing_kept s s0 eds :
  s ≠ s0 →
  outgoing s (List.filter (fun e => negb (String.eqb (source e) s0)) eds)
  = outgoing s eds.
Proof.
  intros Hs. unfold outgoing. induction eds as [|e eds IH]; [done|]. simpl.
  destruct (String.eqb (source e) s0) eqn:Hes; simpl.
  - apply String.eqb_eq in Hes.
    destruct (String.eqb_spec (source e) s) as [Heq|_]; [congruence|done].
  - destruct (String.eqb (source e) s); [f_equal|]; done.
Qed.

(** C9.  Let every node have at most one outgoing edge.  [onConnect]
    first drops every edge leaving the source of the new connection.  For
    a connection that has a source and a target, [addEdge] then puts the
    new edge at the end: it is the one outgoing edge of the source, and
    the edges of the other nodes are as before.  (For a connection that
    lacks an end nothing is added.)  In the resulting edges every node
    again has at most one outgoing edge; this holds with any [addEdge]
    that keeps to what the library documents. *)
Theorem onConnect_keeps_one_outgoing_edge params eds :
  atMostOneOutgoing eds →
  let kept :=
    List.filter (fun e => negb (String.eqb (source e) (Conn.source params))) eds in
  let edge :=
    {| edgeId := default (getEdgeId params) (Conn.id params);
       source := Conn.source params;
       target := Conn.target params;
       sourceHandle := Conn.sourceHandle params;
       targetHandle := Conn.targetHandle params |} in
  outgoing (Conn.source params) kept = [] ∧
  (∀ s, s ≠ Conn.source params → outgoing s kept = outgoing s eds) ∧
  (Conn.source params ≠ EmptyString → Conn.target params ≠ EmptyString →
   onConnect addEdge params eds = kept ++ [edge] ∧
   outgoing (Conn.source params) (onConnect addEdge params eds) = [edge]) ∧
  (Conn.source params = EmptyString ∨ Conn.target params = EmptyString →
   onConnect addEdge params eds = kept) ∧
  atMostOneOutgoing (onConnect addEdge params eds) ∧
  ∀ add, addEdgeContract add → atMostOneOutgoing (onConnect add params eds).
Proof.
  intros Hinv kept edge.
  assert (outgoing (Conn.source params) kept = []) as Hgone
    by apply outgoing_removed.
  assert (∀ s, length (outgoing s kept) ≤ 1) as Hkept.
  { intros s. pose proof (outgoing_filter_length s
      (fun e => negb (String.eqb (source e) (Conn.source params))) eds).
    specialize (Hinv s). unfold kept. lia. }
  assert (∀ add, addEdgeContract add →
                 atMostOneOutgoing (onConnect add params eds)) as Hany.
  { intros add Hadd. unfold onConnect. fold kept.
    destruct (Hadd params kept) as [->|(e & Hs & Ht & ->)]; [done|].
    intros s. rewrite outgoing_snoc.
    destruct (String.eqb (source e) s) eqn:Hes.
    - apply String.eqb_eq in Hes. rewrite <- Hes, Hs, Hgone. simpl. lia.
    - rewrite app_nil_r. apply Hkept. }
  split; [done|]. split.
  { intros s Hs. by apply outgoing_kept. }
  split.
  { intros Hs Ht. apply String.eqb_neq in Hs, Ht.
    assert (onConnect addEdge params eds = kept ++ [edge]) as Hadd.
    { unfold onConnect, addEdge. cbn [truthy]. rewrite Hs, Ht. simpl.
      fold kept. fold edge.
      pose proof (connectionExists_removed edge eds) as Hnone.
      cbn [source edge] in Hnone. fold kept in Hnone. by rewrite Hnone. }
    split; [done|]. rewrite Hadd, outgoing_snoc, Hgone. simpl.
    by rewrite String.eqb_refl. }
  split.
  { intros Hmiss. unfold onConnect, addEdge.
    replace (negb (truthy (Some (Conn.source params)))
             || negb (truthy (Some (Conn.target params)))) with true; [done|].
    symmetry. cbn [truthy].
    destruct Hmiss as [H|H]; rewrite H; simpl; [done|apply orb_true_r]. }
  split; [|done]. apply Hany, addEdge_contract.
Qed.

Lemma onConnect_witness :
  let params := Conn.mk None "node_0" "node_2" None None in
  let kept := [sampleEdge "node_1" "node_2"; sampleEdge "node_3" "node_4"] in
  let edge := sampleEdge "node_0" "node_2" in
  outgoing "node_0" kept = [] ∧
  (∀ s, s ≠ "node_0" → outgoing s kept = outgoing s chainEdges) ∧
  ("node_0" ≠ EmptyString → "node_2" ≠ EmptyString →
   onConnect addEdge params chainEdges = kept ++ [edge] ∧
   outgoing "node_0" (onConnect addEdge params chainEdges) = [edge]) ∧
  ("node_0" = EmptyString ∨ "node_2" = EmptyString →
   onConnect addEdge params chainEdges = kept) ∧
  atMostOneOutgoing (onConnect addEdge params chainEdges) ∧
  ∀ add, addEdgeContract add →
         atMostOneOutgoing (onConnect add params chainEdges).
Proof.
  apply (onConnect_keeps_one_outgoing_edge
           (Conn.mk None "node_0" "node_2" None None) chainEdges).
  apply distinct_sources_atMostOneOutgoing.
  apply (bool_decide_unpack _). by vm_compute.
Defined.

Example onConnect_replaces_edge :
  onConnect addEdge (Conn.mk None "node_0" "node_2" None None) chainEdges =
  [sampleEdge "node_1" "node_2"; sampleEdge "node_3" "node_4";
   sampleEdge "node_0" "node_2"].
Proof. reflexivity. Qed.

(** ** Numeric coercions *)

Lemma truthy_blank : truthy None = false ∧ truthy (Some EmptyString) = false.
Proof. done. Qed.

(** A blank parameter of an LLM node gets its default, on the client and
    on the route. *)
Lemma llm_blank_defaults parseFloat :
  parsedTemperature parseFloat None = Num (7 # 10) ∧
  parsedTemperature parseFloat (Some EmptyString) = Num (7 # 10) ∧
  parsedMaxOutputTokens None = Num 1024 ∧
  parsedMaxOutputTokens (Some EmptyString) = Num 1024 ∧
  parsedTopK None = Num 40 ∧
  parsedTopK (Some EmptyString) = Num 40.
Proof. repeat split. Qed.

Lemma llm_request_defaults n :
  parameters (data n) = None →
  llmRequest n = GeminiRequest EmptyString EmptyString "0.7" "1024" "40" ∧
  searchRequest n = PineconeSearch EmptyString "5".
Proof.
  intros Hp. unfold llmRequest, searchRequest, param. by rewrite Hp.
Qed.

Lemma parseInt_defaults :
  parseInt "1024" = Num 1024 ∧ parseInt "40" = Num 40 ∧ parseInt "5" = Num 5.
Proof. repeat split. Qed.

(** The search route falls back to 5 for a blank or unparsable [topK]. *)
Lemma search_topK_default topK :
  parseInt (default "undefined" topK) = NaN → topKResults topK = Num 5.
Proof. intros Hnan. unfold topKResults. by rewrite Hnan. Qed.

Lemma search_topK_blank :
  topKResults None = Num 5 ∧ topKResults (Some EmptyString) = Num 5.
Proof. split; reflexivity. Qed.

(** On the generation route a parameter that is not blank is parsed, and
    nothing replaces a failed parse. *)
Lemma llm_unparsable_temperature parseFloat s :
  truthy (Some s) = true → parseFloat s = NaN →
  parsedTemperature parseFloat (Some s) = NaN.
Proof. intros Ht Hnan. unfold parsedTemperature. by rewrite Ht. Qed.

Lemma llm_unparsable_int s :
  truthy (Some s) = true → parseInt s = NaN →
  parsedMaxOutputTokens (Some s) = NaN ∧ parsedTopK (Some s) = NaN.
Proof.
  intros Ht Hnan. unfold parsedMaxOutputTokens, parsedTopK. by rewrite Ht.
Qed.

(** C7.  For an LLM node with [maxOutputTokens] set to the text [abc], the
    run controller sends the text as it is and the generation route makes
    [NaN] of it, not the default 1024; the search route, given the same
    text as [topK], falls back to its default 5. *)
Theorem llm_unparsable_maxOutputTokens_is_NaN :
  llmRequest unparsableLLM
    = GeminiRequest EmptyString "Hi" "0.7" "abc" "40" ∧
  (∀ parseFloat,
     generationConfig parseFloat (llmRequest unparsableLLM)
     = Some (parseFloat "0.7", NaN, Num 40)) ∧
  NaN ≠ Num 1024 ∧
  searchTopK (searchRequest unparsableSearch) = Some (Num 5).
Proof.
  assert (llmRequest unparsableLLM
          = GeminiRequest EmptyString "Hi" "0.7" "abc" "40") as Hreq
    by by vm_compute.
  split; [done|]. split; [intros parseFloat; by rewrite Hreq|].
  split; [done|]. by vm_compute.
Qed.

(** * Further properties *)

(** ** What the resolver returns *)

Lemma Walk_head nodes adj cid k n visited :
  Walk nodes adj (Some cid) k (n :: visited) →
  id n = cid ∧ find (hasId cid) nodes = Some n.
Proof.
  intros Hw. inversion Hw; subst;
    match goal with
    | H : find _ _ = Some _ |- _ =>
        pose proof (find_some _ _ H) as [_ Hid]; apply hasId_true in Hid
    end; done.
Qed.

Lemma Walk_None nodes adj k visited :
  Walk nodes adj None k visited → visited = [].
Proof. intros Hw. by inversion Hw. Qed.

Lemma Walk_linked nodes adj cur k visited :
  Walk nodes adj cur k visited → linked adj visited.
Proof.
  induction 1 as [| |cid n Ht Hn He|cid n k rest Ht Hn He Hw IH];
    intros i a b Ha Hb.
  - by rewrite lookup_nil in Ha.
  - by rewrite lookup_nil in Ha.
  - simpl in Hb. by rewrite lookup_nil in Hb.
  - destruct i as [|i]; simpl in Ha, Hb.
    + injection Ha as <-. destruct rest as [|m rest]; [done|].
      simpl in Hb. injection Hb as <-.
      pose proof (find_some _ _ Hn) as [_ Hid]. apply hasId_true in Hid.
      rewrite Hid. destruct (adj !! cid) as [c|] eqn:Hadj.
      * apply Walk_head in Hw as [-> _]. done.
      * by apply Walk_None in Hw.
    + by apply (IH i).
Qed.

Lemma Walk_inner_not_End nodes adj cur k visited :
  Walk nodes adj cur k visited →
  ∀ i n, visited !! i = Some n → S i < length visited →
         hasType "End" n = false.
Proof.
  induction 1 as [| |cid n Ht Hn He|cid n k rest Ht Hn He Hw IH];
    intros i m Hm Hi; simpl in Hi; try lia.
  destruct i as [|i]; simpl in *.
  - by injection Hm as <-.
  - apply (IH i); [done|lia].
Qed.

Lemma adjacencyMap_edge edges s t :
  adjacencyMap edges !! s = Some t →
  ∃ e, In e edges ∧ source e = s ∧ target e = t.
Proof.
  rewrite adjacencyMap_lookup. intros Hl.
  destruct (last (outgoing s edges)) as [e|] eqn:He; [|done].
  injection Hl as <-. exists e.
  apply last_Some_elem_of, list_elem_of_In, outgoing_In in He as [? ?]. done.
Qed.

(** Whatever the resolver returns is a path of the graph: it begins at the
    node bearing the id of the first Start node, ends at a node of type
    End, has no End node before, passes through no node twice, holds only
    nodes of the graph, and each of its nodes is joined to the next by an
    edge of the array, the one the adjacency map keeps. *)
Theorem resolve_sound fuel nodes edges order :
  getExecutionOrder fuel nodes edges = Some (Some order) →
  (∃ startNode first,
     find (hasType "Start") nodes = Some startNode ∧
     head order = Some first ∧
     find (hasId (id startNode)) nodes = Some first) ∧
  (∃ lastNode, last order = Some lastNode ∧ hasType "End" lastNode = true) ∧
  (∀ i n, order !! i = Some n → S i < length order →
          hasType "End" n = false) ∧
  List.NoDup order ∧
  (∀ n, In n order → In n nodes) ∧
  linked (adjacencyMap edges) order ∧
  (∀ i a b, order !! i = Some a → order !! (S i) = Some b →
            ∃ e, In e edges ∧ source e = id a ∧ target e = id b).
Proof.
  unfold getExecutionOrder. intros Hr.
  destruct (find (hasType "Start") nodes) as [startNode|] eqn:Hs; [|done].
  destruct (find (hasType "End") nodes) as [endNode|]; [|done].
  destruct (traverse nodes (adjacencyMap edges) fuel (Some (id startNode)) [])
    as [visited|] eqn:Ht; [|done].
  apply walk_traverse in Ht as (k & w & Hk & Hw & ->). simpl in Hr.
  destruct (last w) as [lastNode|] eqn:Hl; [|done].
  destruct (hasType "End" lastNode) eqn:He; [|done].
  injection Hr as <-.
  split.
  { exists startNode. destruct w as [|first w]; [done|].
    exists first. apply Walk_head in Hw as [_ Hf]. done. }
  split; [by exists lastNode|].
  split; [by eapply Walk_inner_not_End|].
  split; [by eapply Walk_NoDup|].
  split; [intros n; by eapply Walk_visits_nodes|].
  pose proof (Walk_linked _ _ _ _ _ Hw) as Hlink.
  split; [done|].
  intros i a b Ha Hb. apply adjacencyMap_edge. by apply (Hlink i).
Qed.

Lemma resolve_sound_witness :
  (∃ startNode first,
     find (hasType "Start") chainNodes = Some startNode ∧
     head chainOrder = Some first ∧
     find (hasId (id startNode)) chainNodes = Some first) ∧
  (∃ lastNode, last chainOrder = Some lastNode
               ∧ hasType "End" lastNode = true) ∧
  (∀ i n, chainOrder !! i = Some n → S i < length chainOrder →
          hasType "End" n = false) ∧
  List.NoDup chainOrder ∧
  (∀ n, In n chainOrder → In n chainNodes) ∧
  linked (adjacencyMap chainEdges) chainOrder ∧
  (∀ i a b, chainOrder !! i = Some a → chainOrder !! (S i) = Some b →
            ∃ e, In e chainEdges ∧ source e = id a ∧ target e = id b).
Proof.
  apply (resolve_sound 2 chainNodes chainEdges chainOrder). reflexivity.
Defined.



(** ** When the resolver does not return *)

Lemma traverse_None_Steps nodes adj fuel : ∀ cur acc,
  traverse nodes adj fuel cur acc = None →
  ∃ visited cur', Steps nodes adj cur (S fuel) visited cur'.
Proof.
  induction fuel as [|fuel IH]; intros cur acc Hnone;
    rewrite traverse_eq in Hnone;
    (destruct cur as [cid|]; [|done]);
    (destruct (truthy (Some cid)) eqn:Ht; [|done]);
    (destruct (find (hasId cid) nodes) as [n|] eqn:Hn; [|done]);
    (destruct (hasType "End" n) eqn:He; [done|]).
  - exists [n], (adj !! cid). apply steps_hop; try done. apply steps_here.
  - apply IH in Hnone as (rest & cur' & Hsteps).
    exists (n :: rest), cur'. by apply steps_hop.
Qed.

Lemma Steps_length nodes adj cur j visited cur' :
  Steps nodes adj cur j visited cur' → length visited = j.
Proof. induction 1; simpl; congruence. Qed.

Lemma Steps_visits_nodes nodes adj cur j visited cur' :
  Steps nodes adj cur j visited cur' → ∀ n, In n visited → In n nodes.
Proof.
  induction 1 as [|cid n j rest cur' Ht Hn He Hs IH]; intros m Hm; [done|].
  destruct Hm as [<-|Hm]; [|by apply IH].
  by apply find_some in Hn as [? _].
Qed.

(** The iterations of the loop are the beginning of any walk that stops. *)
Lemma Steps_Walk_prefix nodes adj cur j visited cur' :
  Steps nodes adj cur j visited cur' →
  ∀ k w, Walk nodes adj cur k w → j ≤ k ∧ visited = take j w.
Proof.
  induction 1 as [|cid n j rest cur' Ht Hn He Hs IH]; intros k w Hw.
  - split; [lia|done].
  - inversion Hw; subst; try congruence.
    match goal with
    | H : find _ _ = Some ?m, W : Walk _ _ (_ !! _) ?k' ?w' |- _ =>
        assert (m = n) as -> by congruence;
        destruct (IH _ _ W) as [Hle ->]
    end.
    split; [lia|done].
Qed.

Lemma Steps_repeat_no_Walk nodes adj cur j visited cur' :
  Steps nodes adj cur j visited cur' → ¬ List.NoDup visited →
  ∀ fuel acc, traverse nodes adj fuel cur acc = None.
Proof.
  intros Hs Hdup fuel acc.
  destruct (traverse nodes adj fuel cur acc) as [r|] eqn:Hr; [|done].
  apply walk_traverse in Hr as (k & w & _ & Hw & _).
  destruct (Steps_Walk_prefix _ _ _ _ _ _ Hs _ _ Hw) as [_ ->].
  exfalso. apply Hdup. apply NoDup_ListNoDup.
  apply (sublist_NoDup _ w); [|apply sublist_take].
  apply NoDup_ListNoDup. by eapply Walk_NoDup.
Qed.

(** The resolver never returns exactly when the graph has a Start and an
    End node and the loop, started at the Start node's id, comes to push
    some node a second time: the walk runs in a cycle. *)
Theorem resolve_hangs_iff_cycle nodes edges :
  (∀ fuel, getExecutionOrder fuel nodes edges = None) ↔
  ∃ startNode j visited cur',
    find (hasType "Start") nodes = Some startNode ∧
    is_Some (find (hasType "End") nodes) ∧
    Steps nodes (adjacencyMap edges) (Some (id startNode)) j visited cur' ∧
    ¬ List.NoDup visited.
Proof.
  split.
  - intros Hnone. specialize (Hnone (length nodes)).
    unfold getExecutionOrder in Hnone.
    destruct (find (hasType "Start") nodes) as [startNode|] eqn:Hs; [|done].
    destruct (find (hasType "End") nodes) as [endNode|] eqn:He; [|done].
    destruct (traverse nodes (adjacencyMap edges) (length nodes)
                (Some (id startNode)) []) as [order|] eqn:Ht.
    { simpl in Hnone. destruct (last order) as [l|]; [|done].
      by destruct (hasType "End" l). }
    apply traverse_None_Steps in Ht as (visited & cur' & Hsteps).
    exists startNode, (S (length nodes)), visited, cur'.
    split; [done|]. split; [by eexists|]. split; [done|].
    intros Hnd.
    pose proof (Steps_length _ _ _ _ _ _ Hsteps) as Hlen.
    assert (length visited ≤ length nodes) as Hle.
    { apply List.NoDup_incl_length; [done|].
      intros n. by eapply Steps_visits_nodes. }
    lia.
  - intros (startNode & j & visited & cur' & Hs & [endNode He] & Hsteps & Hdup).
    intros fuel. unfold getExecutionOrder. rewrite Hs, He.
    by rewrite (Steps_repeat_no_Walk _ _ _ _ _ _ Hsteps Hdup).
Qed.

(** ** How a run ends *)

Lemma getExecutionOrder_Some_Walk fuel nodes edges order :
  getExecutionOrder fuel nodes edges = Some (Some order) →
  ∃ startNode k lastNode,
    find (hasType "Start") nodes = Some startNode ∧
    Walk nodes (adjacencyMap edges) (Some (id startNode)) k order ∧
    last order = Some lastNode ∧ hasType "End" lastNode = true.
Proof.
  unfold getExecutionOrder. intros Hr.
  destruct (find (hasType "Start") nodes) as [startNode|] eqn:Hs; [|done].
  destruct (find (hasType "End") nodes) as [endNode|]; [|done].
  destruct (traverse nodes (adjacencyMap edges) fuel (Some (id startNode)) [])
    as [visited|] eqn:Ht; [|done].
  apply walk_traverse in Ht as (k & w & Hk & Hw & ->). simpl in Hr.
  destruct (last w) as [lastNode|] eqn:Hl; [|done].
  destruct (hasType "End" lastNode) eqn:He; [|done].
  injection Hr as <-. by exists startNode, k, lastNode.
Qed.

Lemma expectedEntries_app remote nodes1 nodes2 : ∀ history,
  expectedEntries remote history (nodes1 ++ nodes2) =
  expectedEntries remote history nodes1
  ++ expectedEntries remote (history ++ omap requestOf nodes1) nodes2.
Proof.
  induction nodes1 as [|n nodes1 IH]; intros history.
  - simpl. by rewrite app_nil_r.
  - rewrite omap_requestOf_cons. simpl.
    destruct (dispatch n); simpl; rewrite IH, ?app_nil_l, <- ?app_assoc; done.
Qed.

Lemma dispatch_End n :
  hasType "End" n = true →
  dispatch n = Marker "‚èπÔ∏è Flow execution completed successfully".
Proof.
  intros He. unfold dispatch. rewrite He.
  apply hasType_true in He. unfold hasType. by rewrite He.
Qed.

Lemma last_split {A} (l : list A) x :
  last l = Some x → l = removelast l ++ [x].
Proof.
  intros Hl. destruct l as [|y l] using rev_ind; [done|].
  rewrite last_snoc in Hl. injection Hl as ->.
  by rewrite removelast_last.
Qed.

(** A run that completes ends its log with the completion marker of the
    End node.  A run that stops at position [i] stops before the last
    position: the End node is not run, and when the node ids are unique no
    entry after the first one bears its id. *)
Theorem completion_marker_only_when_completed
    remote fuel nodes edges log0 order st oc endNode :
  getExecutionOrder fuel nodes edges = Some (Some order) →
  runFlow remote fuel nodes edges log0 = Some (st, oc) →
  last order = Some endNode →
  (oc = Completed →
   last (logMessages st) =
   Some (nodeEntry endNode "‚èπÔ∏è Flow execution completed successfully")) ∧
  (∀ i, oc = StoppedAt i →
        S i < length order ∧
        (NoDup (map id nodes) →
         ∀ e, In e (tail (logMessages st)) → nodeId e ≠ id endNode)).
Proof.
  intros Hr Hrun Hlast.
  destruct (getExecutionOrder_Some_Walk _ _ _ _ Hr)
    as (startNode & k & lastNode & Hs & Hw & Hl & He).
  assert (lastNode = endNode) as -> by congruence.
  destruct (runFlow_running remote _ _ _ log0 _ Hr)
    as (st' & oc' & Hrun' & Hlog & Hreq & Hoc).
  rewrite Hrun in Hrun'. injection Hrun' as <- <-.
  split.
  - intros ->. simpl in Hlog. rewrite Hlog.
    rewrite (last_split _ _ Hl), expectedEntries_app.
    cbn [expectedEntries]. rewrite (dispatch_End _ He).
    by rewrite app_comm_cons, last_snoc.
  - intros i ->. destruct Hoc as (Hi & n & msg & Hn & [req Hsvc] & Hlastlog).
    assert (S i < length order) as Hlt.
    { destruct (decide (S i = length order)) as [Heq|]; [|lia].
      exfalso. rewrite last_lookup in Hl.
      replace (Nat.pred (length order)) with i in Hl by lia.
      assert (n = endNode) as -> by congruence.
      unfold requestOf in Hsvc. by rewrite (dispatch_End _ He) in Hsvc. }
    split; [done|]. intros Hnd e Hin Heq.
    simpl in Hlog. rewrite Hlog in Hin. simpl in Hin.
    apply (in_map nodeId) in Hin. rewrite expectedEntries_nodeId, Heq in Hin.
    apply in_map_iff in Hin as (m & Hid & Hm).
    apply List.filter_In in Hm as [Hm _].
    apply list_elem_of_In, list_elem_of_lookup in Hm as [p Hp].
    apply lookup_take_Some in Hp as [Hp Hpi].
    assert (m = endNode) as ->.
    { pose proof (Walk_visits_nodes _ _ _ _ _ Hw) as Hsub.
      assert (In m nodes) as Hm1.
      { apply Hsub. apply list_elem_of_In, list_elem_of_lookup. by exists p. }
      assert (In endNode nodes) as Hm2.
      { apply Hsub. by apply list_elem_of_In, last_Some_elem_of. }
      pose proof (find_hasId_NoDup _ _ Hnd Hm1) as H1.
      pose proof (find_hasId_NoDup _ _ Hnd Hm2) as H2.
      rewrite Hid in H1. congruence. }
    pose proof (Walk_NoDup _ _ _ _ _ Hw) as Hnodup.
    apply NoDup_ListNoDup in Hnodup.
    rewrite last_lookup in Hl.
    pose proof (NoDup_lookup _ _ _ _ Hnodup Hp Hl). lia.
Qed.

Lemma completion_marker_witness :
  ∃ st,
    runFlow answering 3 chainNodes chainEdges [] = Some (st, Completed) ∧
    (Completed = Completed →
     last (logMessages st) =
     Some (nodeEntry (sampleNode "node_2" "End")
             "‚èπÔ∏è Flow execution completed successfully")) ∧
    (∀ i, Completed = StoppedAt i →
          S i < length chainOrder ∧
          (NoDup (map id chainNodes) →
           ∀ e, In e (tail (logMessages st)) →
                nodeId e ≠ id (sampleNode "node_2" "End"))).
Proof.
  eexists. split; [reflexivity|].
  apply (completion_marker_only_when_completed answering 3 chainNodes
           chainEdges [] chainOrder); reflexivity.
Defined.

(** ** The editor *)

Lemma node_id_injective (a b : nat) :
  "node_" +:+ pretty a = "node_" +:+ pretty b → a = b.
Proof. intros H. simpl in H. injection H as H. by apply (inj pretty). Qed.

Lemma idsIssued_mono c c' nodes :
  c ≤ c' → idsIssued c nodes → idsIssued c' nodes.
Proof.
  intros Hle Hi n Hn. destruct (Hi n Hn) as (k & Hk & Hid).
  exists k. split; [lia|done].
Qed.

Lemma idsIssued_wellFormed c nodes :
  idsIssued c nodes → NoDup (map id nodes) → wellFormedIds nodes.
Proof.
  intros Hi Hnd. split; [done|]. apply Forall_forall. intros n Hn.
  destruct (Hi n) as (k & _ & ->); [by apply list_elem_of_In|]. done.
Qed.

Lemma addNode_invariant nodeType st :
  editorInvariant st → editorInvariant (addNode nodeType st).
Proof.
  intros (Hi & Hnd & Hout). unfold addNode.
  destruct (negb (truthy (Some nodeType))); [done|].
  unfold editorInvariant, graphInvariant. simpl.
  split; [|split; [|done]].
  - intros n Hn. apply in_app_or in Hn as [Hn|[<-|[]]].
    + destruct (Hi n Hn) as (k & Hk & Hid). exists k. split; [lia|done].
    + exists (Editor.nodeIdRef st). split; [lia|done].
  - rewrite map_app. apply NoDup_app. split; [done|]. split.
    + intros i Hin Hnew. apply list_elem_of_In in Hin.
      apply in_map_iff in Hin as (n & <- & Hn).
      destruct (Hi n Hn) as (k & Hk & Hid).
      apply list_elem_of_In in Hnew. destruct Hnew as [Hnew|[]].
      simpl in Hnew. rewrite Hid in Hnew.
      apply node_id_injective in Hnew. lia.
    + simpl. apply NoDup_singleton.
Qed.

Lemma filter_idsIssued c (f : Node → bool) nodes :
  idsIssued c nodes → idsIssued c (List.filter f nodes).
Proof. intros Hi n Hn. apply Hi. by apply List.filter_In in Hn as [? _]. Qed.

Lemma filter_NoDup_ids (f : Node → bool) nodes :
  NoDup (map id nodes) → NoDup (map id (List.filter f nodes)).
Proof.
  induction nodes as [|n nodes IH]; [done|]. simpl.
  intros [Hn Hnd]%NoDup_cons. destruct (f n); [|by apply IH].
  simpl. apply NoDup_cons. split; [|by apply IH].
  intros Hin. apply Hn. apply list_elem_of_In in Hin.
  apply in_map_iff in Hin as (m & <- & Hm).
  apply List.filter_In in Hm as [Hm _].
  by apply list_elem_of_In, in_map.
Qed.

Lemma filter_atMostOneOutgoing (f : Edge → bool) eds :
  atMostOneOutgoing eds → atMostOneOutgoing (List.filter f eds).
Proof.
  intros Hinv s. pose proof (outgoing_filter_length s f eds).
  specialize (Hinv s). lia.
Qed.

Lemma handleKeyDown_invariant nodeSelected edgeSelected event st :
  editorInvariant st →
  editorInvariant (handleKeyDown nodeSelected edgeSelected event st).
Proof.
  intros (Hi & Hnd & Hout). unfold handleKeyDown.
  destruct (String.eqb (key event) "Delete"
            || String.eqb (key event) "Backspace"); [|done].
  destruct (String.eqb (tagName event) "INPUT"
            || String.eqb (tagName event) "TEXTAREA"
            || isContentEditable event); [done|].
  split; [by apply filter_idsIssued|].
  split; [by apply filter_NoDup_ids|by apply filter_atMostOneOutgoing].
Qed.

Lemma onConnect_atMostOneOutgoing addEdge params eds :
  addEdgeContract addEdge → atMostOneOutgoing eds →
  atMostOneOutgoing (onConnect addEdge params eds).
Proof.
  intros Hadd Hinv. unfold onConnect.
  set (kept := List.filter
                 (fun e => negb (String.eqb (source e) (Conn.source params)))
                 eds).
  assert (atMostOneOutgoing kept) as Hkept
    by by apply filter_atMostOneOutgoing.
  destruct (Hadd params kept) as [->|(e & Hs & Ht & ->)]; [done|].
  intros s. rewrite outgoing_snoc.
  destruct (String.eqb (source e) s) eqn:Hes.
  - apply String.eqb_eq in Hes. rewrite <- Hes, Hs.
    unfold kept. rewrite outgoing_removed. simpl. lia.
  - rewrite app_nil_r. apply Hkept.
Qed.

Lemma map_same_ids (f : Node → Node) nodes :
  (∀ n, id (f n) = id n) → map id (map f nodes) = map id nodes.
Proof.
  intros Hf. rewrite map_map. apply map_ext. intros n. apply Hf.
Qed.

Lemma map_idsIssued c (f : Node → Node) nodes :
  (∀ n, id (f n) = id n) → idsIssued c nodes → idsIssued c (map f nodes).
Proof.
  intros Hf Hi n Hn. apply in_map_iff in Hn as (m & <- & Hm).
  rewrite Hf. by apply Hi.
Qed.

Lemma updateNodeParameters_invariant st :
  editorInvariant st → editorInvariant (updateNodeParameters st).
Proof.
  intros (Hi & Hnd & Hout). unfold updateNodeParameters.
  destruct (truthy (Editor.expandedNode st)); [|done].
  assert (∀ n, id (if bool_decide (Some (id n) = Editor.expandedNode st)
                   then withParameters (Editor.nodeParameters st) n else n)
               = id n) as Hf by (intros n; by case_bool_decide).
  split; [by apply map_idsIssued|]. split; [|done].
  simpl. by rewrite map_same_ids.
Qed.

Lemma updateNodeName_invariant st :
  editorInvariant st → editorInvariant (updateNodeName st).
Proof.
  intros (Hi & Hnd & Hout). unfold updateNodeName.
  destruct (truthy (Editor.editingNode st) && notBlank (Editor.nodeName st));
    [|done].
  assert (∀ n, id (if bool_decide (Some (id n) = Editor.editingNode st)
                   then withLabel (Editor.nodeName st) n else n)
               = id n) as Hf by (intros n; by case_bool_decide).
  split; [by apply map_idsIssued|]. split; [|done].
  simpl. by rewrite map_same_ids.
Qed.

Lemma perform_invariant addEdge a st :
  addEdgeContract addEdge → ownAction a →
  editorInvariant st → editorInvariant (perform addEdge a st).
Proof.
  intros Hadd Hown Hinv.
  destruct a as [nodeType|ns es ev|params|expandId|fieldKey value| |
                 |node|value| | | |file]; simpl; try done.
  - by apply addNode_invariant.
  - by apply handleKeyDown_invariant.
  - destruct Hinv as (Hi & Hnd & Hout).
    split; [done|]. split; [done|]. by apply onConnect_atMostOneOutgoing.
  - unfold handleExpandNode.
    by destruct (find (hasId expandId) (Editor.nodes st)).
  - by apply updateNodeParameters_invariant.
  - by apply updateNodeName_invariant.
  - destruct file as [[message|w]|]; try done. simpl in Hown.
    unfold importWorkflow.
    destruct Hown as [Hown|[Hnone|Hnone]].
    + unfold ownWorkflow in Hown.
      destruct (workflowNodes w) as [nodes|]; [|done].
      destruct (workflowEdges w) as [edges|]; [|done].
      by destruct (nodeIdCounter w) as [counter|].
    + by rewrite Hnone.
    + rewrite Hnone. by destruct (workflowNodes w).
Qed.

(** In an editing session that starts on the empty canvas and reads no
    foreign workflow file, the node ids stay unique and never empty, each
    is [node_k] for some [k] below the counter, and every node has at most
    one outgoing edge, whatever is added, connected, deleted, renamed,
    configured, exported or read back. *)
Theorem session_keeps_graph_invariants addEdge actions :
  addEdgeContract addEdge →
  Forall ownAction actions →
  let st := session addEdge actions Editor.initial in
  editorInvariant st ∧
  wellFormedIds (Editor.nodes st) ∧
  atMostOneOutgoing (Editor.edges st).
Proof.
  intros Hadd Hown.
  assert (∀ st0, editorInvariant st0 →
                 editorInvariant (session addEdge actions st0)) as Hstep.
  { induction Hown as [|a actions Ha Hown IH]; intros st0 Hinv; [done|].
    simpl. apply IH. by apply perform_invariant. }
  assert (editorInvariant Editor.initial) as Hinit.
  { split; [by intros n []|]. split; [constructor|]. intros s. simpl. lia. }
  intros st. pose proof (Hstep _ Hinit) as Hinv. fold st in Hinv.
  split; [done|]. destruct Hinv as (Hi & Hnd & Hout).
  split; [by eapply idsIssued_wellFormed|done].
Qed.

Lemma session_invariants_witness :
  let st := session addEdge sampleSession Editor.initial in
  editorInvariant st ∧
  wellFormedIds (Editor.nodes st) ∧
  atMostOneOutgoing (Editor.edges st).
Proof.
  apply (session_keeps_graph_invariants addEdge sampleSession).
  - exact addEdge_contract.
  - repeat constructor.
Defined.

Example sampleSession_result :
  map id (Editor.nodes (session addEdge sampleSession Editor.initial))
    = ["node_0"; "node_2"] ∧
  map (fun e => (source e, target e))
      (Editor.edges (session addEdge sampleSession Editor.initial))
    = [("node_0", "node_2")] ∧
  Editor.nodeIdRef (session addEdge sampleSession Editor.initial) = 3.
Proof. by vm_compute. Qed.

(** Pressing Delete or Backspace outside a text field removes the selected
    nodes and keeps exactly the edges that are not selected and whose two
    ends are nodes that stay; no edge is left hanging.  Inside a text
    field, or on another key, nothing is deleted. *)
Theorem delete_leaves_no_hanging_edge nodeSelected edgeSelected event st :
  let st' := handleKeyDown nodeSelected edgeSelected event st in
  (In (key event) ["Delete"; "Backspace"] →
   ¬ In (tagName event) ["INPUT"; "TEXTAREA"] →
   isContentEditable event = false →
   Editor.nodes st'
     = List.filter (fun n => negb (nodeSelected n)) (Editor.nodes st) ∧
   closedEdges (Editor.nodes st') (Editor.edges st') ∧
   ∀ e, In e (Editor.edges st') ↔
        In e (Editor.edges st) ∧ edgeSelected e = false ∧
        (∃ n, In n (Editor.nodes st') ∧ id n = source e) ∧
        (∃ n, In n (Editor.nodes st') ∧ id n = target e)) ∧
  (¬ In (key event) ["Delete"; "Backspace"] ∨
   In (tagName event) ["INPUT"; "TEXTAREA"] ∨
   isContentEditable event = true →
   st' = st).
Proof.
  intros st'. unfold st', handleKeyDown.
  assert (String.eqb (key event) "Delete" || String.eqb (key event) "Backspace"
          = true ↔ In (key event) ["Delete"; "Backspace"]) as Hkey.
  { rewrite orb_true_iff, !String.eqb_eq. simpl. intuition congruence. }
  assert (String.eqb (tagName event) "INPUT"
          || String.eqb (tagName event) "TEXTAREA" = true
          ↔ In (tagName event) ["INPUT"; "TEXTAREA"]) as Htag.
  { rewrite orb_true_iff, !String.eqb_eq. simpl. intuition congruence. }
  assert (∀ c,
            existsb (fun n => String.eqb (id n) c && negb (nodeSelected n))
                    (Editor.nodes st) = true ↔
            ∃ n, In n (List.filter (fun n => negb (nodeSelected n))
                                   (Editor.nodes st)) ∧ id n = c) as Hex.
  { intros c. rewrite existsb_exists. split.
    - intros (n & Hn & [Hid Hsel]%andb_true_iff).
      exists n. rewrite List.filter_In. by apply String.eqb_eq in Hid.
    - intros (n & [Hn Hsel]%List.filter_In & Hid).
      exists n. split; [done|]. rewrite Hsel, andb_true_r.
      by apply String.eqb_eq. }
  split.
  - intros Hk Ht Hc.
    apply Hkey in Hk. rewrite Hk.
    destruct (String.eqb (tagName event) "INPUT"
              || String.eqb (tagName event) "TEXTAREA") eqn:Htg;
      [exfalso; apply Ht; by apply Htag|].
    rewrite Hc. simpl.
    assert (∀ e, In e (List.filter
                   (fun edge =>
                      existsb (fun n => String.eqb (id n) (source edge)
                                        && negb (nodeSelected n))
                              (Editor.nodes st)
                      && existsb (fun n => String.eqb (id n) (target edge)
                                           && negb (nodeSelected n))
                                 (Editor.nodes st)
                      && negb (edgeSelected edge)) (Editor.edges st)) ↔
                 In e (Editor.edges st) ∧ edgeSelected e = false ∧
                 (∃ n, In n (List.filter (fun n => negb (nodeSelected n))
                                         (Editor.nodes st))
                       ∧ id n = source e) ∧
                 (∃ n, In n (List.filter (fun n => negb (nodeSelected n))
                                         (Editor.nodes st))
                       ∧ id n = target e)) as Hedges.
    { intros e. rewrite List.filter_In, !andb_true_iff, negb_true_iff.
      rewrite !Hex. tauto. }
    split; [done|]. split; [|done].
    intros e He. apply Hedges in He. tauto.
  - intros [Hk|[Ht|Hc]].
    + destruct (String.eqb (key event) "Delete"
                || String.eqb (key event) "Backspace") eqn:Hk'; [|done].
      exfalso. apply Hk. by apply Hkey.
    + apply Htag in Ht. rewrite Ht. simpl.
      by destruct (String.eqb (key event) "Delete"
                   || String.eqb (key event) "Backspace").
    + rewrite Hc, orb_true_r.
      by destruct (String.eqb (key event) "Delete"
                   || String.eqb (key event) "Backspace").
Qed.

Lemma delete_witness :
  let st := session addEdge (take 9 sampleSession) Editor.initial in
  let st' := handleKeyDown (hasId "node_1") (fun _ => false)
                           (mkKeyEvent "Delete" "BODY" false) st in
  Editor.nodes st'
    = List.filter (fun n => negb (hasId "node_1" n)) (Editor.nodes st) ∧
  closedEdges (Editor.nodes st') (Editor.edges st') ∧
  ∀ e, In e (Editor.edges st') ↔
       In e (Editor.edges st) ∧ false = false ∧
       (∃ n, In n (Editor.nodes st') ∧ id n = source e) ∧
       (∃ n, In n (Editor.nodes st') ∧ id n = target e).
Proof.
  apply (delete_leaves_no_hanging_edge (hasId "node_1") (fun _ => false)
           (mkKeyEvent "Delete" "BODY" false)).
  - left. reflexivity.
  - simpl. intuition discriminate.
  - reflexivity.
Defined.

(** ** Editing names and parameters does not touch the flow *)

Section MapNodes.
Variable f : Node → Node.
Hypothesis f_id : ∀ n, id (f n) = id n.
Hypothesis f_type : ∀ n, nodeType (data (f n)) = nodeType (data n).

Lemma hasType_map t n : hasType t (f n) = hasType t n.
Proof. unfold hasType. by rewrite f_type. Qed.

Lemma hasId_map i n : hasId i (f n) = hasId i n.
Proof. unfold hasId. by rewrite f_id. Qed.

Lemma find_map (p : Node → bool) nodes :
  (∀ n, p (f n) = p n) → find p (map f nodes) = f <$> find p nodes.
Proof.
  intros Hp. induction nodes as [|n nodes IH]; [done|]. simpl.
  rewrite Hp. by destruct (p n).
Qed.

Lemma traverse_map nodes adj fuel : ∀ cur acc,
  traverse (map f nodes) adj fuel cur (map f acc)
  = map f <$> traverse nodes adj fuel cur acc.
Proof.
  induction fuel as [|fuel IH]; intros cur acc; rewrite !traverse_eq;
    (destruct cur as [cid|]; [|done]);
    (destruct (truthy (Some cid)); [|done]);
    rewrite (find_map _ _ (hasId_map cid));
    (destruct (find (hasId cid) nodes) as [n|]; [|done]); simpl;
    rewrite hasType_map;
    replace (map f acc ++ [f n]) with (map f (acc ++ [n]))
      by (by rewrite map_app);
    (destruct (hasType "End" n)); done.
Qed.

Lemma getExecutionOrder_map fuel nodes edges :
  getExecutionOrder fuel (map f nodes) edges
  = mapResolved f (getExecutionOrder fuel nodes edges).
Proof.
  unfold getExecutionOrder, mapResolved.
  rewrite !(find_map _ _ (hasType_map _)).
  destruct (find (hasType "Start") nodes) as [startNode|]; [|done]. simpl.
  destruct (find (hasType "End") nodes) as [endNode|]; [|done]. simpl.
  rewrite f_id.
  pose proof (traverse_map nodes (adjacencyMap edges) fuel
                (Some (id startNode)) []) as Ht. simpl in Ht. rewrite Ht.
  destruct (traverse nodes (adjacencyMap edges) fuel (Some (id startNode)) [])
    as [order|]; [|done]. simpl.
  rewrite fmap_last. destruct (last order) as [lastNode|]; [|done]. simpl.
  rewrite hasType_map. by destruct (hasType "End" lastNode).
Qed.
End MapNodes.

Lemma mapResolved_ids (f : Node → Node) r :
  (∀ n, id (f n) = id n) →
  mapResolved id (mapResolved f r) = mapResolved id r.
Proof.
  intros Hf. destruct r as [[order|]|]; try done. simpl.
  by rewrite map_same_ids.
Qed.

(** Saving the parameter form or a new name changes neither the ids nor
    the order of the nodes that the resolver returns, nor whether it
    returns, rejects the graph or runs out of hops. *)
Theorem editing_keeps_execution_order fuel st :
  let ids nodes edges := mapResolved id (getExecutionOrder fuel nodes edges) in
  ids (Editor.nodes (updateNodeParameters st))
      (Editor.edges (updateNodeParameters st))
    = ids (Editor.nodes st) (Editor.edges st) ∧
  ids (Editor.nodes (updateNodeName st)) (Editor.edges (updateNodeName st))
    = ids (Editor.nodes st) (Editor.edges st).
Proof.
  intros ids. unfold ids. split.
  - unfold updateNodeParameters.
    destruct (truthy (Editor.expandedNode st)); [|done]. simpl.
    rewrite getExecutionOrder_map;
      [|intros n; by case_bool_decide|intros n; by case_bool_decide].
    apply mapResolved_ids. intros n. by case_bool_decide.
  - unfold updateNodeName.
    destruct (truthy (Editor.editingNode st) && notBlank (Editor.nodeName st));
      [|done]. simpl.
    rewrite getExecutionOrder_map;
      [|intros n; by case_bool_decide|intros n; by case_bool_decide].
    apply mapResolved_ids. intros n. by case_bool_decide.
Qed.

Lemma param_withParameters n key dflt :
  param (withParameters (default ∅ (parameters (data n))) n) key dflt
  = param n key dflt.
Proof.
  unfold param. simpl. destruct (parameters (data n)) as [p|]; [done|].
  simpl. by rewrite lookup_empty.
Qed.

Lemma dispatch_withParameters n :
  dispatch (withParameters (default ∅ (parameters (data n))) n) = dispatch n.
Proof.
  unfold dispatch, hasType, llmRequest, webScrapeRequest, embedRequest,
    searchRequest.
  rewrite !param_withParameters. done.
Qed.

Lemma executeNodes_map remote (g : Node → Node) order :
  (∀ n, dispatch (g n) = dispatch n) →
  (∀ n out, nodeEntry (g n) out = nodeEntry n out) →
  ∀ pos st,
    executeNodes remote (map g order) pos st = executeNodes remote order pos st.
Proof.
  intros Hd He. induction order as [|n order IH]; intros pos st; [done|].
  simpl. rewrite Hd. destruct (dispatch n) as [out|req result|].
  - by rewrite He, IH.
  - destruct (result (remote (requests st) req)); by rewrite He, ?IH.
  - apply IH.
Qed.

(** Opening the parameter form of a node and saving it untouched leaves
    every run as it was: the same log, the same requests, the same end.
    (The node ids are unique and no form is open before.) *)
Theorem open_and_save_is_neutral remote fuel log0 nodeId st :
  NoDup (map id (Editor.nodes st)) →
  Editor.expandedNode st = None →
  let st' := updateNodeParameters (handleExpandNode nodeId st) in
  runFlow remote fuel (Editor.nodes st') (Editor.edges st') log0
    = runFlow remote fuel (Editor.nodes st) (Editor.edges st) log0 ∧
  map id (Editor.nodes st') = map id (Editor.nodes st) ∧
  map (fun n => label (data n)) (Editor.nodes st')
    = map (fun n => label (data n)) (Editor.nodes st) ∧
  Editor.expandedNode st' = None.
Proof.
  intros Hnd Hclosed st'. unfold st', handleExpandNode, updateNodeParameters.
  destruct (find (hasId nodeId) (Editor.nodes st)) as [node|] eqn:Hfind;
    [|by rewrite Hclosed].
  simpl.
  match goal with
  | |- context [if ?b then _ else _] => destruct b; [|done]
  end.
  simpl.
  set (g := fun n : Node =>
              if bool_decide (Some (id n) = Some nodeId)
              then withParameters (default ∅ (parameters (data n))) n else n).
  assert (map (fun n => if bool_decide (Some (id n) = Some nodeId)
                        then withParameters
                               (default ∅ (parameters (data node))) n
                        else n) (Editor.nodes st)
          = map g (Editor.nodes st)) as ->.
  { apply map_ext_in. intros n Hn. unfold g. case_bool_decide as Hid; [|done].
    injection Hid as Hid.
    pose proof (find_hasId_NoDup _ _ Hnd Hn) as Hn'.
    rewrite Hid, Hfind in Hn'. by injection Hn' as ->. }
  assert (∀ n, dispatch (g n) = dispatch n) as Hd.
  { intros n. unfold g. case_bool_decide; [|done].
    apply dispatch_withParameters. }
  assert (∀ n, id (g n) = id n) as Hid
    by (intros n; unfold g; by case_bool_decide).
  assert (∀ n, label (data (g n)) = label (data n)) as Hlabel
    by (intros n; unfold g; by case_bool_decide).
  assert (∀ n, nodeType (data (g n)) = nodeType (data n)) as Htype
    by (intros n; unfold g; by case_bool_decide).
  split; [|split; [by apply map_same_ids|split; [|done]]].
  - unfold runFlow. rewrite (getExecutionOrder_map g Hid Htype).
    destruct (getExecutionOrder fuel (Editor.nodes st) (Editor.edges st))
      as [[order|]|]; try done.
    simpl. rewrite length_map. f_equal. apply executeNodes_map; [done|].
    intros n out. unfold nodeEntry. by rewrite Hid, Hlabel.
  - rewrite map_map. apply map_ext. intros n. apply Hlabel.
Qed.

Lemma open_and_save_witness :
  let st := session addEdge (take 5 sampleSession) Editor.initial in
  let st' := updateNodeParameters (handleExpandNode "node_1" st) in
  runFlow answering 3 (Editor.nodes st') (Editor.edges st') []
    = runFlow answering 3 (Editor.nodes st) (Editor.edges st) [] ∧
  map id (Editor.nodes st') = map id (Editor.nodes st) ∧
  map (fun n => label (data n)) (Editor.nodes st')
    = map (fun n => label (data n)) (Editor.nodes st) ∧
  Editor.expandedNode st' = None.
Proof.
  apply (open_and_save_is_neutral answering 3 [] "node_1"
           (session addEdge (take 5 sampleSession) Editor.initial)).
  - apply (bool_decide_unpack _). by vm_compute.
  - reflexivity.
Defined.

(** ** The test buttons *)

Lemma param_field n st key dflt :
  sameParameters n st → param n key dflt = field st key dflt.
Proof. intros Hsame. unfold param, field. by rewrite Hsame. Qed.

(** The parameter form offers a test button exactly for the node types
    that a run executes through a remote call.  While the form holds the
    parameters of the node, the button sends the request that the run
    sends for that node, and for the same response it shows the text that
    the run writes into the log, success or error. *)
Theorem test_button_shows_run_output fetch st n :
  (is_Some (testButton (nodeType (data n))) ↔ is_Some (requestOf n)) ∧
  (Editor.expandedNode st = Some (id n) →
   sameParameters n st →
   ∀ test, testButton (nodeType (data n)) = Some test →
     ∃ req result,
       dispatch n = Call req result ∧
       Editor.testOutput (test fetch st) = resultText (result (fetch req)) ∧
       Editor.isTestLoading (test fetch st) = false ∧
       Editor.nodes (test fetch st) = Editor.nodes st ∧
       Editor.logMessages (test fetch st) = Editor.logMessages st).
Proof.
  unfold testButton, requestOf, dispatch, hasType.
  destruct (String.eqb_spec (nodeType (data n)) "LLM") as [Ht|Hllm].
  { rewrite Ht. simpl. split; [split; intros _; by eexists|].
    intros Hexp Hsame test [= <-].
    exists (llmRequest n), llmResult. split; [done|].
    unfold testLLMNode, runTest, llmRequest. simpl.
    rewrite !(param_field _ _ _ _ Hsame).
    split; [|done]. by destruct (fetch _) as [[] body|]. }
  destruct (String.eqb_spec (nodeType (data n)) "Web Scraping") as [Ht|Hweb].
  { rewrite Ht. simpl. split; [split; intros _; by eexists|].
    intros Hexp Hsame test [= <-].
    exists (webScrapeRequest n), webScrapeResult. split; [done|].
    unfold testWebScrapingNode, runTest, webScrapeRequest. simpl.
    rewrite !(param_field _ _ _ _ Hsame).
    split; [|done]. by destruct (fetch _) as [[] body|]. }
  destruct (String.eqb_spec (nodeType (data n)) "Embedding Generator")
    as [Ht|Hemb].
  { rewrite Ht. simpl. split; [split; intros _; by eexists|].
    intros Hexp Hsame test [= <-].
    exists (embedRequest n), embedResult. split; [done|].
    unfold testEmbeddingGeneratorNode, runTest, embedRequest. simpl.
    rewrite !(param_field _ _ _ _ Hsame), Hexp.
    assert (orElse (Some (id n)) EmptyString = id n) as ->.
    { unfold orElse. by destruct (String.eqb_spec (id n) EmptyString). }
    split; [|done]. by destruct (fetch _) as [[] body|]. }
  destruct (String.eqb_spec (nodeType (data n)) "Similarity Search")
    as [Ht|Hsearch].
  { rewrite Ht. simpl. split; [split; intros _; by eexists|].
    intros Hexp Hsame test [= <-].
    exists (searchRequest n), searchResult. split; [done|].
    unfold testSimilaritySearchNode, runTest, searchRequest. simpl.
    rewrite !(param_field _ _ _ _ Hsame).
    split; [|done]. by destruct (fetch _) as [[] body|]. }
  split; [|by intros _ _ test [=]].
  destruct (String.eqb (nodeType (data n)) "Start");
    [split; by intros [? [=]]|].
  destruct (String.eqb (nodeType (data n)) "End"); split; by intros [? [=]].
Qed.

Lemma test_button_witness :
  let st := session addEdge (take 6 sampleSession) Editor.initial in
  let n := {| id := "node_1";
              data := {| label := "Node 2"; nodeType := "LLM";
                         parameters := Some ∅ |} |} in
  let fetch := fun _ : Request => Settled true sampleBody in
  In n (Editor.nodes st) ∧
  ∃ req result,
    dispatch n = Call req result ∧
    Editor.testOutput (testLLMNode fetch st)
      = resultText (result (fetch req)) ∧
    Editor.isTestLoading (testLLMNode fetch st) = false ∧
    Editor.nodes (testLLMNode fetch st) = Editor.nodes st ∧
    Editor.logMessages (testLLMNode fetch st) = Editor.logMessages st.
Proof.
  intros st n fetch. split; [right; by left|].
  apply (proj2 (test_button_shows_run_output fetch st n)).
  - reflexivity.
  - intros key. reflexivity.
  - reflexivity.
Defined.

(** ** The routes *)

Lemma orElse_truthy a d :
  truthy (Some d) = true → truthy (Some (orElse a d)) = true.
Proof.
  intros Hd. unfold orElse. destruct a as [s|]; [|done].
  destruct (String.eqb s EmptyString) eqn:Hs; [done|].
  unfold truthy. by rewrite Hs.
Qed.

Lemma truthy_default v :
  truthy v = true → truthy (Some (default EmptyString v)) = true.
Proof. by destruct v. Qed.

(** The generation route answers with a status of success only together
    with a text that is not empty, and with any other status only together
    with one of its four error texts.  The log entry of an LLM node is
    therefore the generated text, or [Error:] with one of these four: the
    details of a failure are never shown, and the client's own fallback
    text is never needed. *)
Theorem gemini_route_contract parseFloat apiKey service request :
  let r := geminiRoute parseFloat apiKey service request in
  let errors := ["userMessage is required."; "GEMINI_API_KEY not configured";
                 "Gemini API error"; "Internal server error"] in
  (isOk (status r) = true →
   Resp.error (body r) = None ∧
   truthy (Some (Resp.output (body r))) = true ∧
   llmResult (toResponse r) = Success (Resp.output (body r))) ∧
  (isOk (status r) = false →
   ∃ m, In m errors ∧ Resp.error (body r) = Some m ∧
        llmResult (toResponse r) = Failure ("Error: " +:+ m)).
Proof.
  intros r errors. unfold r, geminiRoute, toResponse, llmResult.
  destruct request as [message|b].
  { simpl. split; [done|]. intros _. exists "Internal server error".
    split; [simpl; tauto|done]. }
  unfold geminiPrepare.
  destruct (negb (truthy (Gemini.userMessage b))).
  { simpl. split; [done|]. intros _. exists "userMessage is required.".
    split; [simpl; tauto|done]. }
  destruct (negb (truthy apiKey)).
  { simpl. split; [done|]. intros _. exists "GEMINI_API_KEY not configured".
    split; [simpl; tauto|done]. }
  destruct (service _) as [st candidate errorData|message].
  - destruct (isOk st) eqn:Hok; simpl.
    + split; [|done]. intros _. split; [done|].
      split; [by apply orElse_truthy|done].
    + rewrite Hok. split; [done|]. intros _. exists "Gemini API error".
      split; [simpl; tauto|done].
  - simpl. split; [done|]. intros _. exists "Internal server error".
    split; [simpl; tauto|done].
Qed.

(** The generation service is called only for a request with a user
    message and with the key configured: then with this message as the
    text, with the key, with [topP] 0.95, and with a system instruction
    only if one that is not empty was given, [systemInstruction] taking
    precedence over [systemPrompt]. *)
Theorem gemini_call_only_with_message parseFloat apiKey b :
  match geminiPrepare parseFloat apiKey b with
  | inl early => isOk (status early) = false ∧
                 (truthy (Gemini.userMessage b) = false ∨ truthy apiKey = false)
  | inr call =>
      Gemini.userMessage b = Some (Gemini.text call) ∧
      Gemini.text call ≠ EmptyString ∧
      apiKey = Some (Gemini.apiKey call) ∧
      Gemini.apiKey call ≠ EmptyString ∧
      Gemini.topP call = Num (95 # 100) ∧
      Gemini.callSystemInstruction call =
        (if truthy (Gemini.systemInstruction b) then Gemini.systemInstruction b
         else if truthy (Gemini.systemPrompt b) then Gemini.systemPrompt b
         else None)
  end.
Proof.
  unfold geminiPrepare.
  destruct (truthy (Gemini.userMessage b)) eqn:Hum; simpl; [|by auto].
  destruct (truthy apiKey) eqn:Hkey; simpl; [|by auto].
  destruct (Gemini.userMessage b) as [um|]; [|done].
  destruct apiKey as [k|]; [|done]. simpl.
  apply truthy_Some in Hum, Hkey.
  repeat split; try done.
  by destruct (truthy (Gemini.systemInstruction b)) eqn:Hsi; rewrite ?Hsi.
Qed.

(** ** The vector route *)

Ltac metadata_cases b :=
  unfold embedMetadata;
  generalize (String.substring 0 (40 * 1000)
                (default EmptyString (Pinecone.text b)));
  intros ?;
  destruct (Pinecone.workflow b) as [?|], (Pinecone.tag b) as [?|],
    (Pinecone.info b) as [?|], (Pinecone.source b) as [?|];
  cbn [truthy default];
  repeat match goal with
         | |- context [negb (String.eqb ?s EmptyString)] =>
             destruct (negb (String.eqb s EmptyString))
         end.

Lemma embedMetadata_known timestamp b :
  let optional v := if truthy v then v else None in
  embedMetadata timestamp b !! "text"
    = Some (String.substring 0 (40 * 1000)
              (default EmptyString (Pinecone.text b))) ∧
  embedMetadata timestamp b !! "nodeId"
    = Some (orElse (Pinecone.nodeId b) "unknown") ∧
  embedMetadata timestamp b !! "timestamp" = Some timestamp ∧
  embedMetadata timestamp b !! "source" = optional (Pinecone.source b) ∧
  embedMetadata timestamp b !! "info" = optional (Pinecone.info b) ∧
  embedMetadata timestamp b !! "tag" = optional (Pinecone.tag b) ∧
  embedMetadata timestamp b !! "workflow" = optional (Pinecone.workflow b).
Proof.
  intros optional. unfold optional.
  metadata_cases b; repeat split; rewrite ?lookup_insert; reflexivity.
Qed.

Lemma embedMetadata_other timestamp b key :
  ¬ In key ["text"; "nodeId"; "timestamp"; "source"; "info"; "tag";
            "workflow"] →
  embedMetadata timestamp b !! key = None.
Proof.
  intros Hkey. simpl in Hkey.
  metadata_cases b;
    rewrite ?lookup_insert_ne by (intros <-; tauto);
    apply lookup_singleton_ne; intros <-; tauto.
Qed.

(** For the request that a run sends for an Embedding Generator node, the
    metadata stored with the embedding holds the first 40000 characters of
    the text, the node id ([unknown] for an empty id) and the time stamp;
    each of [source], [info], [tag] and [workflow] is stored exactly when
    the parameter of the node is not blank; nothing else is stored. *)
Theorem embed_metadata_of_node timestamp n text source info tag workflow nodeId :
  embedRequest n = PineconeEmbed text source info tag workflow nodeId →
  let metadata :=
    embedMetadata timestamp
      (embedBodyOf text source info tag workflow nodeId) in
  let optional key :=
    if String.eqb (param n key EmptyString) EmptyString then None
    else Some (param n key EmptyString) in
  metadata !! "text"
    = Some (String.substring 0 (40 * 1000) (param n "text" EmptyString)) ∧
  metadata !! "nodeId"
    = Some (if String.eqb (id n) EmptyString then "unknown" else id n) ∧
  metadata !! "timestamp" = Some timestamp ∧
  metadata !! "source" = optional "source" ∧
  metadata !! "info" = optional "info" ∧
  metadata !! "tag" = optional "tag" ∧
  metadata !! "workflow" = optional "workflow" ∧
  ∀ key, ¬ In key ["text"; "nodeId"; "timestamp"; "source"; "info"; "tag";
                   "workflow"] →
         metadata !! key = None.
Proof.
  unfold embedRequest. intros Heq. injection Heq as <- <- <- <- <- <-.
  destruct (embedMetadata_known timestamp
              (embedBodyOf (param n "text" EmptyString)
                 (param n "source" EmptyString) (param n "info" EmptyString)
                 (param n "tag" EmptyString) (param n "workflow" EmptyString)
                 (id n)))
    as (Htext & Hid & Hts & Hsource & Hinfo & Htag & Hworkflow).
  cbn [embedBodyOf Pinecone.text Pinecone.source Pinecone.info Pinecone.tag
       Pinecone.workflow Pinecone.nodeId default truthy orElse] in *.
  split; [exact Htext|]. split; [exact Hid|]. split; [exact Hts|].
  split.
  { rewrite Hsource.
    destruct (String.eqb (param n "source" EmptyString) EmptyString);
      reflexivity. }
  split.
  { rewrite Hinfo.
    destruct (String.eqb (param n "info" EmptyString) EmptyString);
      reflexivity. }
  split.
  { rewrite Htag.
    destruct (String.eqb (param n "tag" EmptyString) EmptyString);
      reflexivity. }
  split.
  { rewrite Hworkflow.
    destruct (String.eqb (param n "workflow" EmptyString) EmptyString);
      reflexivity. }
  intros key Hkey. by apply embedMetadata_other.
Qed.

Lemma embed_metadata_witness :
  let n := {| id := "node_3";
              data := {| label := "Node 4"; nodeType := "Embedding Generator";
                         parameters := Some {[ "text" := "Hello";
                                               "tag" := "demo" ]} |} |} in
  let metadata :=
    embedMetadata "2024-01-01T00:00:00.000Z"
      (embedBodyOf "Hello" EmptyString EmptyString "demo" EmptyString
                   "node_3") in
  let optional key :=
    if String.eqb (param n key EmptyString) EmptyString then None
    else Some (param n key EmptyString) in
  metadata !! "text"
    = Some (String.substring 0 (40 * 1000) (param n "text" EmptyString)) ∧
  metadata !! "nodeId"
    = Some (if String.eqb (id n) EmptyString then "unknown" else id n) ∧
  metadata !! "timestamp" = Some "2024-01-01T00:00:00.000Z" ∧
  metadata !! "source" = optional "source" ∧
  metadata !! "info" = optional "info" ∧
  metadata !! "tag" = optional "tag" ∧
  metadata !! "workflow" = optional "workflow" ∧
  ∀ key, ¬ In key ["text"; "nodeId"; "timestamp"; "source"; "info"; "tag";
                   "workflow"] →
         metadata !! key = None.
Proof.
  intros n.
  apply (embed_metadata_of_node "2024-01-01T00:00:00.000Z" n).
  reflexivity.
Defined.

Lemma generateEmbedding_ops service text :
  match generateEmbedding service text with
  | inl message =>
      Pinecone.embed service text = inl message ∨
      message = "Failed to generate embedding" ∨
      message = "Unexpected embedding format"
  | inr values =>
      ∃ e, Pinecone.embed service text = inr (Some e) ∧
           Pinecone.vectorType e = "dense" ∧ Pinecone.values e = Some values
  end.
Proof.
  unfold generateEmbedding.
  destruct (Pinecone.embed service text) as [message|[e|]] eqn:He;
    [by left| |by auto].
  destruct (Pinecone.values e) as [values|] eqn:Hv; [|by auto].
  destruct (String.eqb_spec (Pinecone.vectorType e) "dense"); [|by auto].
  by exists e.
Qed.

(** The vector route touches the service only for an [embed] with a text
    or a [search] with a query, and with the key configured.  What it
    reports as stored is what it sent to [upsert], after the embedding of
    the text, and the dimension is the length of that embedding; a search
    asks for a number of results that is never [NaN] nor zero, 5 unless
    [topK] says otherwise, and counts the matches it returns; every
    failure is reported with a status that is not one of success. *)
Theorem pinecone_route_consistent apiKey indexName timestamp millis random
    service request :
  let '(result, ops) :=
    pineconeRoute apiKey indexName timestamp millis random service request in
  match result with
  | Pinecone.Error status error details =>
      isOk status = false ∧
      In error routeErrors ∧
      (∀ index id metadata,
         In (Pinecone.Upsert index id metadata) ops →
         ∃ values message,
           Pinecone.upsert service index id values metadata = Some message) ∧
      (status = 400 → ops = [])
  | Pinecone.Stored id dimension metadata =>
      ∃ b text values,
        request = inr b ∧ Pinecone.text b = Some text ∧ text ≠ EmptyString ∧
        truthy apiKey = true ∧
        generateEmbedding service text = inr values ∧
        dimension = length values ∧
        metadata = embedMetadata timestamp b ∧
        ops = [Pinecone.Embed text;
               Pinecone.Upsert (orElse indexName "agent-builder") id metadata]
  | Pinecone.Matches query topK resultsCount matches =>
      ∃ b values,
        request = inr b ∧ Pinecone.query b = Some query ∧
        query ≠ EmptyString ∧ truthy apiKey = true ∧
        generateEmbedding service query = inr values ∧
        topK = topKResults (Pinecone.topK b) ∧
        numberTruthy topK = true ∧
        resultsCount = length matches ∧
        ops = [Pinecone.Embed query;
               Pinecone.Search (orElse indexName "agent-builder") topK]
  end.
Proof.
  unfold pineconeRoute. destruct request as [message|b].
  { simpl. unfold routeErrors. simpl. split; [done|]. split; [tauto|].
    split; [by intros ? ? ? []|done]. }
  assert (In "Pinecone operation failed" routeErrors) as Hfail
    by (unfold routeErrors; simpl; tauto).
  assert (numberTruthy (topKResults (Pinecone.topK b)) = true) as HtopK.
  { unfold topKResults.
    destruct (numberTruthy (parseInt (default "undefined" (Pinecone.topK b))))
      eqn:Ht; done. }
  case_bool_decide as Hembed.
  - destruct (truthy (Pinecone.text b)) eqn:Htext; simpl.
    2:{ unfold routeErrors. simpl. split; [done|]. split; [tauto|].
        split; [by intros ? ? ? []|done]. }
    destruct (truthy apiKey) eqn:Hkey; simpl.
    2:{ split; [done|]. split; [exact Hfail|].
        split; [by intros ? ? ? []|done]. }
    destruct (Pinecone.text b) as [text|] eqn:Htx; [|done]. simpl.
    destruct (generateEmbedding service text) as [message|values] eqn:Hgen.
    { split; [done|]. split; [exact Hfail|].
      split; [|done]. intros ? ? ? [Hin|[]]. discriminate Hin. }
    destruct (Pinecone.upsert service _ _ values _) as [message|] eqn:Hup.
    { split; [done|]. split; [exact Hfail|]. split; [|done].
      intros ? ? ? [Hin|[Hin|[]]]; [discriminate Hin|].
      injection Hin as <- <- <-. by exists values, message. }
    exists b, text, values. apply truthy_Some in Htext. by rewrite Htx.
  - case_bool_decide as Hsearch.
    + destruct (truthy (Pinecone.query b)) eqn:Hq; simpl.
      2:{ unfold routeErrors. simpl. split; [done|]. split; [tauto|].
          split; [by intros ? ? ? []|done]. }
      destruct (truthy apiKey) eqn:Hkey; simpl.
      2:{ split; [done|]. split; [exact Hfail|].
          split; [by intros ? ? ? []|done]. }
      destruct (Pinecone.query b) as [query|] eqn:Hqq; [|done]. simpl.
      destruct (generateEmbedding service query) as [message|values] eqn:Hgen.
      { split; [done|]. split; [exact Hfail|].
        split; [|done]. intros ? ? ? [Hin|[]]. discriminate Hin. }
      destruct (Pinecone.search service _ values _) as [message|hits].
      { split; [done|]. split; [exact Hfail|]. split; [|done].
        intros ? ? ? [Hin|[Hin|[]]]; discriminate Hin. }
      exists b, values. apply truthy_Some in Hq. by rewrite Hqq.
    + unfold routeErrors. simpl. split; [done|]. split; [tauto|].
      split; [by intros ? ? ? []|done].
Qed.

(** ** The extraction route *)

(** The extraction route opens a browser session exactly for a request
    with a url and an instruction and with the three keys configured, and
    then begins with [init].  It answers with the extracted data, echoing
    url and instruction, exactly when all four calls on the session
    succeed.  It closes the session only after a successful extraction:
    when opening the session, loading the page or extracting fails, the
    session is left open.  Every other answer is an error with a status
    that is not one of success and one of the error texts of the routes. *)
Theorem scrape_route_session apiKey projectId geminiApiKey browser request :
  let '(result, ops) :=
    webScrapeRoute apiKey projectId geminiApiKey browser request in
  let configured :=
    truthy apiKey = true ∧ truthy projectId = true ∧
    truthy geminiApiKey = true in
  (ops = [] ∨ head ops = Some Scrape.Init) ∧
  (ops ≠ [] ↔
   configured ∧
   ∃ url instruction,
     request = inr (Some url, Some instruction) ∧
     url ≠ EmptyString ∧ instruction ≠ EmptyString) ∧
  (In Scrape.Close ops ↔
   configured ∧
   ∃ url instruction data,
     request = inr (Some url, Some instruction) ∧
     url ≠ EmptyString ∧ instruction ≠ EmptyString ∧
     Scrape.init browser = None ∧
     Scrape.goto browser url = None ∧
     Scrape.extract browser instruction = inr data) ∧
  (∀ url instruction data,
     result = Scrape.Scraped url instruction data ↔
     configured ∧
     request = inr (Some url, Some instruction) ∧
     url ≠ EmptyString ∧ instruction ≠ EmptyString ∧
     Scrape.init browser = None ∧
     Scrape.goto browser url = None ∧
     Scrape.extract browser instruction = inr data ∧
     Scrape.close browser = None) ∧
  match result with
  | Scrape.Scraped url instruction data =>
      ops = [Scrape.Init; Scrape.Goto url; Scrape.Extract instruction;
             Scrape.Close]
  | Scrape.Error status error details =>
      isOk status = false ∧ In error routeErrors ∧
      (details = None → ops = [])
  end.
Proof.
  unfold webScrapeRoute, routeErrors.
  destruct request as [message|[url instruction]].
  { simpl. split; [by left|]. split; [split; [done|]|].
    { by intros (_ & ? & ? & ? & _). }
    split; [split; [by intros []|by intros (_ & ? & ? & ? & ? & _)]|].
    split; [|by intuition].
    intros ? ? ?. split; [done|]. by intros (_ & ? & _). }
  destruct (truthy url) eqn:Hurl; simpl.
  2:{ split; [by left|]. split; [split; [done|]|].
      { intros (_ & u & ins & [= -> ->] & Hu & _).
        apply truthy_Some in Hu. congruence. }
      split; [split; [by intros []|]|].
      { intros (_ & u & ins & d & [= -> ->] & Hu & _).
        apply truthy_Some in Hu. congruence. }
      split; [|by intuition].
      intros ? ? ?. split; [done|]. intros (_ & [= -> ->] & Hu & _).
      apply truthy_Some in Hu. congruence. }
  destruct (truthy instruction) eqn:Hins; simpl.
  2:{ split; [by left|]. split; [split; [done|]|].
      { intros (_ & u & ins & [= -> ->] & _ & Hi).
        apply truthy_Some in Hi. congruence. }
      split; [split; [by intros []|]|].
      { intros (_ & u & ins & d & [= -> ->] & _ & Hi & _).
        apply truthy_Some in Hi. congruence. }
      split; [|by intuition].
      intros ? ? ?. split; [done|]. intros (_ & [= -> ->] & _ & Hi & _).
      apply truthy_Some in Hi. congruence. }
  destruct url as [url|]; [|done].
  destruct instruction as [instruction|]; [|done].
  apply truthy_Some in Hurl, Hins.
  destruct (truthy apiKey) eqn:Ha; simpl.
  2:{ split; [by left|]. split; [split; [done|by intros ((? & _) & _)]|].
      split; [split; [by intros []|by intros ((? & _) & _)]|].
      split; [|by intuition].
      intros ? ? ?. split; [done|]. by intros ((? & _) & _). }
  destruct (truthy projectId) eqn:Hp; simpl.
  2:{ split; [by left|]. split; [split; [done|by intros ((_ & ? & _) & _)]|].
      split; [split; [by intros []|by intros ((_ & ? & _) & _)]|].
      split; [|by intuition].
      intros ? ? ?. split; [done|]. by intros ((_ & ? & _) & _). }
  destruct (truthy geminiApiKey) eqn:Hg; simpl.
  2:{ split; [by left|]. split; [split; [done|by intros ((_ & _ & ?) & _)]|].
      split; [split; [by intros []|by intros ((_ & _ & ?) & _)]|].
      split; [|by intuition].
      intros ? ? ?. split; [done|]. by intros ((_ & _ & ?) & _). }
  assert (∃ u ins : string,
            @inr string _ (Some url, Some instruction) = inr (Some u, Some ins)
            ∧ u ≠ EmptyString ∧ ins ≠ EmptyString) as Hopen
    by (by exists url, instruction).
  destruct (Scrape.init browser) as [message|] eqn:Hinit.
  { simpl. split; [by right|]. split; [split; [by intros _|done]|].
    split; [split; [intros [Hin|[]]; discriminate Hin|]|].
    { by intros (_ & ? & ? & ? & _ & _ & _ & ? & _). }
    split; [|by intuition].
    intros ? ? ?. split; [done|]. by intros (_ & _ & _ & _ & ? & _). }
  destruct (Scrape.goto browser url) as [message|] eqn:Hgoto.
  { simpl. split; [by right|]. split; [split; [by intros _|done]|].
    split; [split; [intros [Hin|[Hin|[]]]; discriminate Hin|]|].
    { intros (_ & u & ins & d & [= <- <-] & _ & _ & _ & Hgo & _).
      congruence. }
    split; [|by intuition].
    intros ? ? ?. split; [done|].
    intros (_ & [= <- <-] & _ & _ & _ & Hgo & _). congruence. }
  destruct (Scrape.extract browser instruction) as [message|data] eqn:Hex.
  { simpl. split; [by right|]. split; [split; [by intros _|done]|].
    split; [split; [intros [Hin|[Hin|[Hin|[]]]]; discriminate Hin|]|].
    { intros (_ & u & ins & d & [= <- <-] & _ & _ & _ & _ & Hex').
      congruence. }
    split; [|by intuition].
    intros ? ? ?. split; [done|].
    intros (_ & [= <- <-] & _ & _ & _ & _ & Hex' & _). congruence. }
  assert (In Scrape.Close
             [Scrape.Init; Scrape.Goto url; Scrape.Extract instruction;
              Scrape.Close]) as Hclosed by (simpl; tauto).
  destruct (Scrape.close browser) as [message|] eqn:Hclose.
  - simpl. split; [by right|]. split; [split; [by intros _|done]|].
    split; [split; [intros _|done]|].
    { split; [done|]. by exists url, instruction, data. }
    split; [|by intuition].
    intros ? ? ?. split; [done|].
    by intros (_ & _ & _ & _ & _ & _ & _ & ?).
  - simpl. split; [by right|]. split; [split; [by intros _|done]|].
    split; [split; [intros _|done]|].
    { split; [done|]. by exists url, instruction, data. }
    split; [|done].
    intros u ins d. split.
    + intros [= <- <- <-]. done.
    + intros (_ & [= <- <-] & _ & _ & _ & _ & Hex' & _).
      rewrite Hex in Hex'. by injection Hex' as <-.
Qed.

(** ** Runs against the routes *)

Lemma executeNodes_stopped remote order : ∀ pos st st' i,
  executeNodes remote order pos st = (st', StoppedAt i) →
  ∃ n req result history errorMsg,
    pos ≤ i ∧ order !! (i - pos) = Some n ∧
    dispatch n = Call req result ∧
    result (remote history req) = Failure errorMsg ∧
    last (logMessages st') = Some (nodeEntry n errorMsg).
Proof.
  induction order as [|n rest IH]; intros pos st st' i Hrun; [done|].
  simpl in Hrun.
  assert (∀ st0,
            executeNodes remote rest (S pos) st0 = (st', StoppedAt i) →
            ∃ m req result history errorMsg,
              pos ≤ i ∧ (n :: rest) !! (i - pos) = Some m ∧
              dispatch m = Call req result ∧
              result (remote history req) = Failure errorMsg ∧
              last (logMessages st') = Some (nodeEntry m errorMsg)) as Hrest.
  { intros st0 Hrun0.
    apply IH in Hrun0 as (m & req & result & history & msg & Hle & Hm & Hrest).
    exists m, req, result, history, msg. split; [lia|].
    replace (i - pos) with (S (i - S pos)) by lia. done. }
  destruct (dispatch n) as [out|req result|] eqn:Hd; [by eapply Hrest| |
    by eapply Hrest].
  destruct (result (remote (requests st) req)) as [out|errorMsg] eqn:Hres;
    [by eapply Hrest|].
  injection Hrun as <- <-.
  exists n, req, result, (requests st), errorMsg.
  rewrite Nat.sub_diag. split; [done|]. split; [done|]. split; [done|].
  split; [done|]. simpl. by rewrite last_snoc.
Qed.

Lemma executeNodes_blocked remote n req result errorMsg order :
  dispatch n = Call req result →
  (∀ history, result (remote history req) = Failure errorMsg) →
  ∀ k pos st st' oc,
    order !! k = Some n →
    executeNodes remote order pos st = (st', oc) →
    ∃ j, oc = StoppedAt j ∧ pos ≤ j ≤ pos + k ∧
         (j = pos + k → last (logMessages st') = Some (nodeEntry n errorMsg)).
Proof.
  intros Hd Hfail. induction order as [|m rest IH];
    intros k pos st st' oc Hk Hrun; [done|].
  destruct k as [|k]; simpl in Hk, Hrun.
  - injection Hk as ->. rewrite Hd, Hfail in Hrun. injection Hrun as <- <-.
    exists pos. split; [done|]. split; [lia|]. intros _. simpl.
    by rewrite last_snoc.
  - assert (∀ st0,
              executeNodes remote rest (S pos) st0 = (st', oc) →
              ∃ j, oc = StoppedAt j ∧ pos ≤ j ≤ pos + S k ∧
                   (j = pos + S k →
                    last (logMessages st') = Some (nodeEntry n errorMsg)))
      as Hrest.
    { intros st0 Hrun0.
      destruct (IH k (S pos) st0 st' oc Hk Hrun0) as (j & -> & Hj & Hlast).
      exists j. split; [done|]. split; [lia|]. intros ->. apply Hlast. lia. }
    destruct (dispatch m) as [out|req' result'|]; [by eapply Hrest| |
      by eapply Hrest].
    destruct (result' (remote (requests st) req')) as [out|msg];
      [by eapply Hrest|].
    injection Hrun as <- <-. exists pos. split; [done|]. split; [lia|]. lia.
Qed.

Lemma failed_response (result : Response → ExecResult) status error details :
  In result [webScrapeResult; embedResult; searchResult] →
  isOk status = false → truthy (Some error) = true →
  result (toResponse (errorResponse status error details))
  = Failure ("Error: " +:+ error).
Proof.
  intros Hin Hok Ht. unfold toResponse. simpl. rewrite Hok.
  apply truthy_Some in Ht.
  destruct Hin as [<-|[<-|[<-|[]]]]; simpl;
    by destruct (String.eqb_spec error EmptyString).
Qed.

Lemma routeErrors_truthy error :
  In error routeErrors → truthy (Some error) = true.
Proof.
  unfold routeErrors. simpl.
  intros Hin. repeat destruct Hin as [<-|Hin]; done.
Qed.

Lemma geminiRoute_llmResult parseFloat apiKey service b :
  (∃ out, llmResult (toResponse (geminiRoute parseFloat apiKey service (inr b)))
          = Success out) ∨
  (∃ error, In error routeErrors ∧
            llmResult (toResponse (geminiRoute parseFloat apiKey service (inr b)))
            = Failure ("Error: " +:+ error)).
Proof.
  unfold geminiRoute, geminiPrepare, toResponse, llmResult, routeErrors.
  destruct (negb (truthy (Gemini.userMessage b))).
  { right. exists "userMessage is required.". simpl. tauto. }
  destruct (negb (truthy apiKey)).
  { right. exists "GEMINI_API_KEY not configured". simpl. tauto. }
  destruct (service _) as [st candidate errorData|message].
  - destruct (isOk st) eqn:Hok; simpl; [left; by eexists|].
    rewrite Hok. right. exists "Gemini API error". simpl. tauto.
  - right. exists "Internal server error". simpl. tauto.
Qed.

Lemma pineconeRoute_error apiKey indexName timestamp millis random service
    request status error details :
  fst (pineconeRoute apiKey indexName timestamp millis random service request)
    = Pinecone.Error status error details →
  isOk status = false ∧ In error routeErrors.
Proof.
  unfold pineconeRoute, pineconeFailed, routeErrors.
  repeat match goal with
         | |- context [match ?x with _ => _ end] => destruct x
         end; simpl; intros [= <- <- <-]; simpl; tauto.
Qed.

(** An [embed] request is never answered with matches. *)
Lemma pineconeRoute_embed apiKey indexName timestamp millis random service
    text source info tag workflow nodeId query topK count matches :
  fst (pineconeRoute apiKey indexName timestamp millis random service
         (inr (embedBodyOf text source info tag workflow nodeId)))
    ≠ Pinecone.Matches query topK count matches.
Proof.
  unfold pineconeRoute.
  cbn [embedBodyOf Pinecone.action Pinecone.text].
  rewrite bool_decide_eq_true_2 by done.
  repeat match goal with
         | |- context [match ?x with _ => _ end] => destruct x
         end; cbn [fst]; discriminate.
Qed.

Lemma scrapeRoute_error apiKey projectId geminiApiKey browser request
    status error details :
  fst (webScrapeRoute apiKey projectId geminiApiKey browser request)
    = Scrape.Error status error details →
  isOk status = false ∧ In error routeErrors.
Proof.
  unfold webScrapeRoute, scrapeFailed, routeErrors.
  repeat match goal with
         | |- context [match ?x with _ => _ end] => destruct x
         end; simpl; intros [= <- <- <-]; simpl; tauto.
Qed.

Section RunsOnServer.
Variable parseFloat : string → number.
Variable numberText : number → string.
Variable stringify : gmap string string → string.
Variable typeError : Pinecone.Found → string.
Variable env : Env.
Variable backend : list Request → Backend.

Lemma server_failure history n req result errorMsg :
  dispatch n = Call req result →
  result (server parseFloat numberText stringify typeError env backend
                 history req)
    = Failure errorMsg →
  (∃ error, In error routeErrors ∧ errorMsg = "Error: " +:+ error) ∨
  (hasType "Similarity Search" n = true ∧
   ∃ query topK count matches f,
     searchAnswer env backend history n = Pinecone.Matches query topK count matches ∧
     In f matches ∧ wellTyped f = false ∧
     errorMsg = "Error: " +:+ typeError f).
Proof.
  unfold dispatch.
  destruct (hasType "Start" n); [done|]. destruct (hasType "End" n); [done|].
  destruct (hasType "LLM" n).
  { intros [= <- <-]. unfold server, llmRequest.
    destruct (geminiRoute_llmResult parseFloat (GEMINI_API_KEY env)
                (geminiService (backend history))
                (geminiBodyOf (param n "systemInstruction" EmptyString)
                   (param n "userMessage" EmptyString)
                   (param n "temperature" "0.7")
                   (param n "maxOutputTokens" "1024")
                   (param n "topK" "40"))) as [[out ->]|(error & Hin & ->)];
      [done|].
    intros [= <-]. left. by exists error. }
  destruct (hasType "Web Scraping" n).
  { intros [= <- <-]. unfold server, webScrapeRequest.
    destruct (fst (webScrapeRoute _ _ _ _ _)) as [status error details|? ? ?]
      eqn:Hroute; [|done].
    apply scrapeRoute_error in Hroute as [Hok Hin]. cbn [scrapeResponse].
    rewrite failed_response;
      [|simpl; tauto|done|by apply routeErrors_truthy].
    intros [= <-]. left. by exists error. }
  destruct (hasType "Embedding Generator" n).
  { intros [= <- <-]. unfold server, embedRequest.
    destruct (fst (pineconeRoute _ _ _ _ _ _ _))
      as [status error details|? ? ?|? ? ? ?] eqn:Hroute; [|done|].
    - apply pineconeRoute_error in Hroute as [Hok Hin].
      cbn [pineconeResponse].
      rewrite failed_response;
        [|simpl; tauto|done|by apply routeErrors_truthy].
      intros [= <-]. left. by exists error.
    - by apply pineconeRoute_embed in Hroute. }
  destruct (hasType "Similarity Search" n); [|done].
  intros [= <- <-]. unfold server, searchRequest.
  destruct (fst (pineconeRoute _ _ _ _ _ _ _))
    as [status error details|? ? ?|query topK count matches] eqn:Hroute;
    [|done|].
  - apply pineconeRoute_error in Hroute as [Hok Hin].
    cbn [pineconeResponse].
    rewrite failed_response;
      [|simpl; tauto|done|by apply routeErrors_truthy].
    intros [= <-]. left. by exists error.
  - cbn [pineconeResponse].
    destruct (find (fun f => negb (wellTyped f)) matches) as [f|] eqn:Hf;
      [|done].
    intros [= <-]. right. split; [done|].
    apply find_some in Hf as [Hin Hbad]. apply negb_true_iff in Hbad.
    by exists query, topK, count, matches, f.
Qed.

Lemma hasType_exclusive t t' n :
  t ≠ t' → hasType t n = true → hasType t' n = false.
Proof.
  intros Hne Ht. apply hasType_true in Ht. apply hasType_false. congruence.
Qed.

Lemma blankRequired_fails n errorMsg :
  blankRequired n = Some errorMsg →
  ∃ req result,
    dispatch n = Call req result ∧
    ∀ history,
      result (server parseFloat numberText stringify typeError env backend
                     history req)
      = Failure errorMsg.
Proof.
  unfold blankRequired, dispatch.
  destruct (hasType "LLM" n) eqn:Hllm.
  { rewrite (hasType_exclusive "LLM" "Start" n), (hasType_exclusive "LLM" "End" n)
      by done.
    destruct (negb (truthy (Some (param n "userMessage" EmptyString)))) eqn:Hb;
      [|done].
    intros [= <-]. exists (llmRequest n), llmResult. split; [done|].
    intros history. unfold server, llmRequest, geminiRoute, geminiPrepare.
    simpl. simpl in Hb. by rewrite Hb. }
  destruct (hasType "Web Scraping" n) eqn:Hweb.
  { rewrite (hasType_exclusive "Web Scraping" "Start" n),
      (hasType_exclusive "Web Scraping" "End" n) by done.
    destruct (negb (truthy (Some (param n "url" EmptyString)))
              || negb (truthy (Some (param n "instruction" EmptyString))))
      eqn:Hb; [|done].
    intros [= <-]. exists (webScrapeRequest n), webScrapeResult.
    split; [done|].
    intros history. unfold server, webScrapeRequest, webScrapeRoute.
    by rewrite Hb. }
  destruct (hasType "Embedding Generator" n) eqn:Hemb.
  { rewrite (hasType_exclusive "Embedding Generator" "Start" n),
      (hasType_exclusive "Embedding Generator" "End" n) by done.
    destruct (negb (truthy (Some (param n "text" EmptyString)))) eqn:Hb;
      [|done].
    intros [= <-]. exists (embedRequest n), embedResult. split; [done|].
    intros history. unfold server, embedRequest, pineconeRoute.
    cbn [embedBodyOf Pinecone.action Pinecone.text].
    rewrite bool_decide_eq_true_2 by done. by rewrite Hb. }
  destruct (hasType "Similarity Search" n) eqn:Hsearch; [|done].
  rewrite (hasType_exclusive "Similarity Search" "Start" n),
    (hasType_exclusive "Similarity Search" "End" n) by done.
  destruct (negb (truthy (Some (param n "query" EmptyString)))) eqn:Hb;
    [|done].
  intros [= <-]. exists (searchRequest n), searchResult. split; [done|].
  intros history. unfold server, searchRequest, pineconeRoute.
  cbn [searchBodyOf Pinecone.action Pinecone.query].
  rewrite bool_decide_eq_false_2 by done.
  rewrite bool_decide_eq_true_2 by done. by rewrite Hb.
Qed.

(** In a run whose requests are answered by the three routes, the entry
    of the node at which the run stops is [Error:] followed by one of the
    eleven error texts of the routes, with one exception: a Similarity
    Search whose route answered with matches of which one has no score
    that is a number, or a text that is not a string; the entry then is
    [Error:] followed by the message of the [TypeError] thrown while the
    matches are printed.  In both cases the details that a route attaches
    to a failure do not reach the log. *)
Theorem run_error_is_route_error fuel nodes edges log0 st i :
  runFlow (server parseFloat numberText stringify typeError env backend)
          fuel nodes edges log0 = Some (st, StoppedAt i) →
  ∃ order n,
    getExecutionOrder fuel nodes edges = Some (Some order) ∧
    order !! i = Some n ∧
    ((∃ error,
        In error routeErrors ∧
        last (logMessages st) = Some (nodeEntry n ("Error: " +:+ error))) ∨
     (hasType "Similarity Search" n = true ∧
      ∃ history query topK count matches f,
        searchAnswer env backend history n = Pinecone.Matches query topK count matches ∧
        In f matches ∧ wellTyped f = false ∧
        last (logMessages st)
          = Some (nodeEntry n ("Error: " +:+ typeError f)))).
Proof.
  unfold runFlow. intros Hrun.
  destruct (getExecutionOrder fuel nodes edges) as [[order|]|]; try done.
  injection Hrun as Hrun.
  apply executeNodes_stopped in Hrun
    as (n & req & result & history & msg & _ & Hn & Hd & Hres & Hlast).
  rewrite Nat.sub_0_r in Hn. exists order, n. split; [done|]. split; [done|].
  destruct (server_failure _ _ _ _ _ Hd Hres)
    as [(error & Hin & ->)|(Hs & query & topK & count & matches & f & Ha
                             & Hin & Hbad & ->)].
  - left. by exists error.
  - right. split; [done|]. by exists history, query, topK, count, matches, f.
Qed.

(** A run against the routes does not get past a service node whose
    required text is blank (the user message of an LLM node, the url or
    the instruction of a Web Scraping node, the text of an Embedding
    Generator, the query of a Similarity Search): it stops there with the
    route's complaint, unless it stopped before. *)
Theorem run_stops_at_blank_required fuel nodes edges log0 order i n
    errorMsg :
  getExecutionOrder fuel nodes edges = Some (Some order) →
  order !! i = Some n →
  blankRequired n = Some errorMsg →
  ∃ st j,
    runFlow (server parseFloat numberText stringify typeError env backend)
            fuel nodes edges log0 = Some (st, StoppedAt j) ∧
    j ≤ i ∧
    (j = i → last (logMessages st) = Some (nodeEntry n errorMsg)).
Proof.
  intros Hr Hn Hblank. unfold runFlow. rewrite Hr.
  destruct (blankRequired_fails _ _ Hblank) as (req & result & Hd & Hfail).
  destruct (executeNodes _ order 0 _) as [st oc] eqn:Hrun.
  destruct (executeNodes_blocked _ _ _ _ _ _ Hd Hfail _ _ _ _ _ Hn Hrun)
    as (j & -> & Hj & Hlast).
  exists st, j. split; [done|]. split; [lia|]. intros ->. by apply Hlast.
Qed.
End RunsOnServer.

Lemma run_error_witness :
  ∃ st,
    runFlow sampleServer 3 chainNodes chainEdges [] = Some (st, StoppedAt 1) ∧
    ∃ order n,
      getExecutionOrder 3 chainNodes chainEdges = Some (Some order) ∧
      order !! 1 = Some n ∧
      ((∃ error,
          In error routeErrors ∧
          last (logMessages st) = Some (nodeEntry n ("Error: " +:+ error))) ∨
       (hasType "Similarity Search" n = true ∧
        ∃ history query topK count matches f,
          searchAnswer sampleEnv sampleBackend history n
            = Pinecone.Matches query topK count matches ∧
          In f matches ∧ wellTyped f = false ∧
          last (logMessages st)
            = Some (nodeEntry n ("Error: " +:+ sampleTypeError f)))).
Proof.
  eexists. split; [reflexivity|].
  apply (run_error_is_route_error sampleParseFloat sampleNumberText
           sampleStringify sampleTypeError sampleEnv sampleBackend 3
           chainNodes chainEdges []).
  reflexivity.
Defined.

(** Both cases occur: a blank user message stops the run with the text of
    the route, and a record whose text is a number stops it with the
    message of the engine. *)
Example run_error_cases :
  (∃ st,
     runFlow sampleServer 3 chainNodes chainEdges [] = Some (st, StoppedAt 1) ∧
     output <$> last (logMessages st)
       = Some "Error: userMessage is required.") ∧
  (∃ st,
     runFlow foreignServer 3 searchNodes searchEdges []
       = Some (st, StoppedAt 1) ∧
     output <$> last (logMessages st)
       = Some "Error: match.text.substring is not a function").
Proof. split; eexists; (split; [reflexivity|reflexivity]). Qed.

Lemma run_stops_witness :
  ∃ st j,
    runFlow sampleServer 3 chainNodes chainEdges [] = Some (st, StoppedAt j) ∧
    j ≤ 1 ∧
    (j = 1 → last (logMessages st)
             = Some (nodeEntry (sampleNode "node_1" "LLM")
                       "Error: userMessage is required.")).
Proof.
  apply (run_stops_at_blank_required sampleParseFloat sampleNumberText
           sampleStringify sampleTypeError sampleEnv sampleBackend 3
           chainNodes chainEdges [] chainOrder 1 (sampleNode "node_1" "LLM")
           "Error: userMessage is required."); reflexivity.
Defined.
